(** * Rooma: chore rotation service (src/app.py)

    A shallow embedding of the Flask/SQLite application: the four tables
    of [init_db] as lists of rows, every request handler as a function
    from the database (and the request) to a reply and the database it
    leaves behind, and the properties of the rotation engine proved on
    these functions. *)

From Stdlib Require Import ZArith Lia Eqdep_dec.
From stdpp Require Import gmap strings list sorting pretty.

Local Open Scope string_scope.
Local Open Scope list_scope.
Local Open Scope Z_scope.

(** ** Sorting, as [list.sort] and [ORDER BY] do it

    Both are stable sorts that compare with "less than" only: an element
    moves in front of another one only when it is strictly smaller. *)

Section Sort.
Context {A : Type} (ltb : A -> A -> bool).

Fixpoint sort_insert (x : A) (l : list A) : list A :=
  match l with
  | [] => [x]
  | y :: l' => if ltb y x then y :: sort_insert x l' else x :: y :: l'
  end.

Definition stable_sort (l : list A) : list A := foldr sort_insert [] l.

(** [x] may stand before [y]: [y] is not smaller than [x]. *)
Definition not_after (x y : A) : Prop := ltb y x = false.

End Sort.

(** ** The schema of [init_db] *)

Record Household := mkHousehold {
  h_id : Z;
  h_name : string;
  h_created_at : string }.

Record Member := mkMember {
  m_id : Z;
  m_household_id : Z;
  m_name : string;
  m_email : option string;
  m_join_order : Z;
  m_created_at : string }.

Record Chore := mkChore {
  c_id : Z;
  c_household_id : Z;
  c_title : string;
  c_cadence : string;
  c_created_at : string }.

Record Assignment := mkAssignment {
  a_id : Z;
  a_household_id : Z;
  a_week_start : string;
  a_chore_id : Z;
  a_member_id : Z;
  a_status : string;
  a_proof_url : option string;
  a_created_at : string }.

(** The database file.  Each table is the list of its rows in insertion
    order; [seq_*] is the table's entry in [sqlite_sequence], the largest
    rowid AUTOINCREMENT has handed out so far. *)
Record DB := mkDB {
  households : list Household;
  members : list Member;
  chores : list Chore;
  assignments : list Assignment;
  seq_households : Z;
  seq_members : Z;
  seq_chores : Z;
  seq_assignments : Z }.

Definition empty_db : DB := mkDB [] [] [] [] 0 0 0 0.

(** [MAX(col)] of SQL: NULL over no rows. *)
Definition sql_max (l : list Z) : option Z :=
  match l with
  | [] => None
  | x :: l' => Some (foldr Z.max x l')
  end.

(** INTEGER PRIMARY KEY AUTOINCREMENT: one more than the largest rowid
    the table holds or has ever held. *)
Definition next_rowid (ids : list Z) (seq : Z) : Z :=
  Z.max (default 0 (sql_max ids)) seq + 1.

(** ** Calendar dates ([datetime.date])

    A date is its proleptic Gregorian ordinal ([date.toordinal()]: day 1
    is 0001-01-01), kept between [date.min] and [date.max]. *)

Definition MAXORDINAL : Z := 3652059.

Definition in_date_range (o : Z) : bool := (0 <? o) && (o <=? MAXORDINAL).

Record date := mkdate {
  toordinal : Z;
  date_in_range : in_date_range toordinal = true }.

(** [date.weekday()]: Monday is 0 and Sunday is 6. *)
Definition weekday (d : date) : Z := (toordinal d + 6) mod 7.

(** [date - timedelta(days=n)]: OverflowError ([None]) when the result
    leaves the range of dates. *)
Definition date_sub_days (d : date) (n : Z) : option date :=
  match in_date_range (toordinal d - n) as b
        return in_date_range (toordinal d - n) = b -> option date with
  | true => fun H => Some (mkdate (toordinal d - n) H)
  | false => fun _ => None
  end eq_refl.

Lemma monday_in_range (d : date) :
  in_date_range (toordinal d - weekday d) = true.
Proof.
  destruct d as [o Ho]. unfold in_date_range, weekday, MAXORDINAL in *. simpl.
  apply andb_true_iff in Ho as [H1 H2].
  apply Z.ltb_lt in H1. apply Z.leb_le in H2.
  apply andb_true_iff. split; [apply Z.ltb_lt | apply Z.leb_le].
  - pose proof (Z.mod_pos_bound (o + 6) 7 ltac:(lia)) as Hb.
    pose proof (Z.div_mod (o + 6) 7 ltac:(lia)) as Hd.
    assert (1 <= (o + 6) / 7) by (apply Z.div_le_lower_bound; lia).
    lia.
  - pose proof (Z.mod_pos_bound (o + 6) 7 ltac:(lia)). lia.
Qed.

(** [monday_of_week(d)]: [d - timedelta(days=d.weekday())].  The
    subtraction stays in range ([monday_in_range]), so the OverflowError
    of [date_sub_days] cannot happen here; [d or date.today()] is [d] for
    every date, a date being never false. *)
Definition monday_of_week (d : date) : date :=
  mkdate (toordinal d - weekday d) (monday_in_range d).

Definition DAYS_IN_MONTH : list Z :=
  [-1; 31; 28; 31; 30; 31; 30; 31; 31; 30; 31; 30; 31].

Definition DAYS_BEFORE_MONTH : list Z :=
  [-1; 0; 31; 59; 90; 120; 151; 181; 212; 243; 273; 304; 334].

(** [_ord2ymd] of the datetime module: ordinal to (year, month, day). *)
Definition ord2ymd (ordinal : Z) : Z * Z * Z :=
  let n := ordinal - 1 in
  let n400 := n / 146097 in
  let n := n mod 146097 in
  let year := n400 * 400 + 1 in
  let n100 := n / 36524 in
  let n := n mod 36524 in
  let n4 := n / 1461 in
  let n := n mod 1461 in
  let n1 := n / 365 in
  let n := n mod 365 in
  let year := year + n100 * 100 + n4 * 4 + n1 in
  if (n1 =? 4) || (n100 =? 4) then (year - 1, 12, 31)
  else
    let leapyear := (n1 =? 3) && (negb (n4 =? 24) || (n100 =? 3)) in
    let month := Z.shiftr (n + 50) 5 in
    let preceding :=
      nth (Z.to_nat month) DAYS_BEFORE_MONTH 0
      + (if (2 <? month) && leapyear then 1 else 0) in
    if n <? preceding then
      let month := month - 1 in
      let preceding :=
        preceding - (nth (Z.to_nat month) DAYS_IN_MONTH 0
                     + (if (month =? 2) && leapyear then 1 else 0)) in
      (year, month, n - preceding + 1)
    else (year, month, n - preceding + 1).

Definition digit (n : Z) : Ascii.ascii :=
  Ascii.ascii_of_N (48 + Z.to_N n).

(** The [w] low decimal digits of [n], most significant first. *)
Fixpoint digits (w : nat) (n : Z) : string :=
  match w with
  | O => ""
  | S w' => digits w' (n / 10) +:+ String (digit (n mod 10)) ""
  end.

(** ["%0wd" % n] for a natural number [n]: at least [w] digits. *)
Definition zero_padded (w : nat) (n : Z) : string :=
  if n <? 10 ^ Z.of_nat w then digits w n else pretty n.

(** [date.isoformat()], which [iso_date] returns. *)
Definition iso_date (d : date) : string :=
  let '(year, month, day) := ord2ymd (toordinal d) in
  zero_padded 4 year +:+ "-" +:+ zero_padded 2 month +:+ "-" +:+ zero_padded 2 day.

(** A decimal digit, and a string of decimal digits. *)
Definition is_digit (c : Ascii.ascii) : Prop :=
  (48 <= Ascii.N_of_ascii c <= 57)%N.

Fixpoint all_digits (s : string) : Prop :=
  match s with
  | EmptyString => True
  | String c s' => is_digit c /\ all_digits s'
  end.

(** Comparing by a first key, then by a second one. *)
Definition then_compare (c1 c2 : comparison) : comparison :=
  match c1 with Eq => c2 | _ => c1 end.

(** The calendar order of (year, month, day). *)
Definition ymd_compare (x y : Z * Z * Z) : comparison :=
  then_compare (Z.compare x.1.1 y.1.1)
    (then_compare (Z.compare x.1.2 y.1.2) (Z.compare x.2 y.2)).

(** [_is_leap], [_days_before_year], [_days_before_month], [_ymd2ord] of
    the datetime module. *)
Definition is_leap (year : Z) : bool :=
  (year mod 4 =? 0) && (negb (year mod 100 =? 0) || (year mod 400 =? 0)).

Definition days_before_year (year : Z) : Z :=
  let y := year - 1 in y * 365 + y / 4 - y / 100 + y / 400.

Definition days_before_month (year month : Z) : Z :=
  nth (Z.to_nat month) DAYS_BEFORE_MONTH 0
  + (if (2 <? month) && is_leap year then 1 else 0).

Definition ymd2ord (ymd : Z * Z * Z) : Z :=
  let '(year, month, day) := ymd in
  days_before_year year + days_before_month year month + day.

(** [_days_in_month], and the triples that are dates. *)
Definition days_in_month (year month : Z) : Z :=
  if (month =? 2) && is_leap year then 29 else nth (Z.to_nat month) DAYS_IN_MONTH 0.

Definition valid_ymd (ymd : Z * Z * Z) : Prop :=
  let '(year, month, day) := ymd in
  1 <= month <= 12 /\ 1 <= day <= days_in_month year month.

Definition date_of (o : Z) : option date :=
  match in_date_range o as b return in_date_range o = b -> option date with
  | true => fun H => Some (mkdate o H)
  | false => fun _ => None
  end eq_refl.

(** ** Requests, the server's clock, replies

    The handlers are taken on the requests they are written for: the
    body is a JSON object, and the fields they read are strings or
    [null]. *)

(** What a handler reads from outside the database: [date.today()] and
    the successive values of [now_iso()] during the request. *)
Record Env := mkEnv {
  today : date;
  now_iso : nat -> string }.

(** The exceptions that [cur.execute] raises in the handlers: a
    constraint of the schema refuses a row, or an integer bound to a [?]
    does not fit SQLite's INTEGER. *)
Inductive Exception :=
| IntegrityError (message : string)
| OverflowError (message : string).

(** SQLite's INTEGER is a signed 64-bit number.  A route's [<int:...>]
    passes any natural number on, and sqlite3 raises [OverflowError]
    when it binds one that does not fit.  The two handlers that look a
    row up by such an id alone, [get_household] and
    [complete_assignment], are taken on every id; the handlers that
    work within a household ([add_member], [add_chore], [rotate],
    [get_current_assignments]) on the ids a household can have. *)
Definition fits_int64 (z : Z) : bool := (- 2 ^ 63 <=? z) && (z <? 2 ^ 63).

Definition INT_TOO_LARGE : string :=
  "Python int too large to convert to SQLite INTEGER".

(** What [data.get(key, default)] meets in a JSON body: no such key, the
    key with [null], or the key with a string.  Where the handler reads
    with [data.get(key)] alone the first two are one, [None], and the
    field is an [option string]. *)
Inductive JsonField :=
| Missing
| JsonNull
| JsonString (s : string).

(** [data.get(key, default)] *)
Definition get_or (field : JsonField) (default : string) : option string :=
  match field with
  | Missing => Some default
  | JsonNull => None
  | JsonString s => Some s
  end.

(** What a handler answers: [jsonify(body)] with status 200,
    [jsonify({"error": error}), status], or an exception that leaves the
    handler (no handler of app.py catches one). *)
Inductive Reply (A : Type) :=
| Json (body : A)
| JsonError (status : Z) (error : string)
| Unhandled (e : Exception).

Arguments Json {A} body.
Arguments JsonError {A} status error.
Arguments Unhandled {A} e.

(** [x or y] on an optional string: [None] and the empty string are
    false. *)
Definition str_or (x : option string) (y : string) : string :=
  match x with
  | Some s => if bool_decide (s = "") then y else s
  | None => y
  end.

(** [if not x] on an optional string. *)
Definition falsy (x : option string) : bool :=
  match x with
  | Some s => bool_decide (s = "")
  | None => true
  end.

(** ** The fairness ranker: [pick_member_round_robin] *)

(** SELECT ... FROM members WHERE household_id=? ORDER BY join_order ASC, id ASC *)
Definition member_ltb (x y : Member) : bool :=
  if m_join_order x =? m_join_order y then m_id x <? m_id y
  else m_join_order x <? m_join_order y.

Definition select_members (db : DB) (household_id : Z) : list Member :=
  stable_sort member_ltb
    (filter (fun m => m_household_id m = household_id) (members db)).

(** SELECT member_id, COUNT( * ) ... GROUP BY member_id, over a list of
    member ids: one row per distinct id, with the number of its rows. *)
Definition group_count (ids : list Z) : list (Z * Z) :=
  (fun m => (m, Z.of_nat (length (filter (fun x => x = m) ids)))) <$> remove_dups ids.

(** The rows the history query counts: those of the household whose
    [week_start] is smaller, as text, than the target week. *)
Definition past_assignments (db : DB) (household_id : Z) (week_start : string)
  : list Assignment :=
  filter (fun a => a_household_id a = household_id
                   /\ String.ltb (a_week_start a) week_start = true)
         (assignments db).

Definition select_history (db : DB) (household_id : Z) (week_start : string)
  : list (Z * Z) :=
  group_count (a_member_id <$> past_assignments db household_id week_start).

(** [{row["member_id"]: row["cnt"] for row in rows}] *)
Definition dict_of_rows (rows : list (Z * Z)) : gmap Z Z :=
  foldl (fun d row => <[row.1 := row.2]> d) ∅ rows.

(** A tuple [(count, join_order, id)] and Python's [<] on such tuples. *)
Definition Score : Type := Z * Z * Z.

Definition score_ltb (x y : Score) : bool :=
  let '(c1, j1, i1) := x in
  let '(c2, j2, i2) := y in
  if c1 =? c2 then (if j1 =? j2 then i1 <? i2 else j1 <? j2) else c1 <? c2.

(** Fewer past assignments first; among equals the smaller join order;
    among equals again the smaller id. *)
Definition score_le (x y : Score) : Prop :=
  let '(c1, j1, i1) := x in
  let '(c2, j2, i2) := y in
  c1 < c2 \/ (c1 = c2 /\ (j1 < j2 \/ (j1 = j2 /\ i1 <= i2))).

Definition score_of (hist : gmap Z Z) (m : Member) : Score :=
  (default 0 (hist !! m_id m), m_join_order m, m_id m).

(** The part of [pick_member_round_robin] after the two queries. *)
Definition fair_order (members : list Member) (hist : gmap Z Z) : list Z :=
  match members with
  | [] => []
  | _ =>
    let scored := score_of hist <$> members in
    (fun s : Score => s.2) <$> stable_sort score_ltb scored
  end.

Definition pick_member_round_robin (db : DB) (household_id : Z) (week_start : string)
  : list Z :=
  fair_order (select_members db household_id)
             (dict_of_rows (select_history db household_id week_start)).

(** What the ranker takes as the past count of member [m]. *)
Definition past_count (db : DB) (hid : Z) (week_start : string) (m : Z) : Z :=
  default 0 (dict_of_rows (select_history db hid week_start) !! m).

(** The database with another [assignments] table. *)
Definition with_assignments (db : DB) (rows : list Assignment) : DB :=
  mkDB (households db) (members db) (chores db) rows
       (seq_households db) (seq_members db) (seq_chores db) (seq_assignments db).

(** ** Households, members, chores *)

Record HouseholdView := mkHouseholdView { hv_id : Z; hv_name : string }.

Definition create_household (db : DB) (name : option string) (env : Env)
  : Reply HouseholdView * DB :=
  if falsy name then (JsonError 400 "name is required", db)
  else
    let name := default "" name in
    let hid := next_rowid (h_id <$> households db) (seq_households db) in
    (Json (mkHouseholdView hid name),
     mkDB (households db ++ [mkHousehold hid name (now_iso env 0)])
          (members db) (chores db) (assignments db)
          hid (seq_members db) (seq_chores db) (seq_assignments db)).

Record MemberView := mkMemberView {
  mv_id : Z; mv_name : string; mv_email : option string; mv_join_order : Z }.

(** SELECT COALESCE(MAX(join_order), 0)+1 FROM members WHERE household_id=? *)
Definition next_join_order (db : DB) (hid : Z) : Z :=
  default 0 (sql_max (m_join_order <$>
                        filter (fun m => m_household_id m = hid) (members db))) + 1.

(** [add_member] when its SELECT reads the database as [seen] and its
    INSERT meets it as [db]: the two differ when another request commits
    in between.  The handler takes no lock, and no constraint is on
    [join_order]. *)
Definition add_member_on (seen db : DB) (hid : Z) (name email : option string)
    (env : Env) : Reply MemberView * DB :=
  if falsy name then (JsonError 400 "name is required", db)
  else
    let name := default "" name in
    let join_order := next_join_order seen hid in
    let mid := next_rowid (m_id <$> members db) (seq_members db) in
    (Json (mkMemberView mid name email join_order),
     mkDB (households db)
          (members db ++ [mkMember mid hid name email join_order (now_iso env 0)])
          (chores db) (assignments db)
          (seq_households db) mid (seq_chores db) (seq_assignments db)).

(** [add_member], one request at a time. *)
Definition add_member (db : DB) (hid : Z) (name email : option string) (env : Env)
  : Reply MemberView * DB :=
  add_member_on db db hid name email env.

Record ChoreView := mkChoreView { cv_id : Z; cv_title : string; cv_cadence : string }.

Definition NOT_NULL_FAILED : string := "NOT NULL constraint failed: chores.cadence".

(** [cadence] is "weekly" only when the body has no such key: a [null]
    there is kept, and the column (NOT NULL) refuses it.  The exception
    leaves the handler before [conn.commit()]. *)
Definition add_chore (db : DB) (hid : Z) (title : option string) (cadence : JsonField)
    (env : Env) : Reply ChoreView * DB :=
  let cadence := get_or cadence "weekly" in
  if falsy title then (JsonError 400 "title is required", db)
  else
    let title := default "" title in
    match cadence with
    | None => (Unhandled (IntegrityError NOT_NULL_FAILED), db)
    | Some cadence =>
      let cid := next_rowid (c_id <$> chores db) (seq_chores db) in
      (Json (mkChoreView cid title cadence),
       mkDB (households db) (members db)
            (chores db ++ [mkChore cid hid title cadence (now_iso env 0)])
            (assignments db)
            (seq_households db) (seq_members db) cid (seq_assignments db))
    end.

(** ** Rotation: [get_current_assignments] and [rotate] *)

(** The week a rotate request names in its JSON body and the week the
    same request names in its query string are two different fields:
    [rotate] reads [request.json], [get_current_assignments] reads
    [request.args]. *)
Record Request := mkRequest {
  json_week_start : option string;
  args_week_start : option string }.

Record AssignmentView := mkAssignmentView {
  av_assignment : Assignment;
  av_chore_title : string;
  av_member_name : string }.

Record WeekView := mkWeekView {
  wv_week_start : string;
  wv_assignments : list AssignmentView }.

Definition this_week (env : Env) : string := iso_date (monday_of_week (today env)).

(** The rows of [assignments] for one household and week. *)
Definition week_rows (db : DB) (hid : Z) (week_start : string) : list Assignment :=
  filter (fun a => a_household_id a = hid /\ a_week_start a = week_start)
         (assignments db).

(** SELECT a.*, c.title, m.name FROM assignments a JOIN chores c ON
    c.id=a.chore_id JOIN members m ON m.id=a.member_id WHERE
    a.household_id=? AND a.week_start=? ORDER BY a.id ASC *)
Definition select_week (db : DB) (hid : Z) (week_start : string)
  : list AssignmentView :=
  stable_sort (fun x y => a_id (av_assignment x) <? a_id (av_assignment y))
    (a ← week_rows db hid week_start;
     c ← filter (fun c => c_id c = a_chore_id a) (chores db);
     m ← filter (fun m => m_id m = a_member_id a) (members db);
     [mkAssignmentView a (c_title c) (m_name m)]).

(** The week [get_current_assignments] answers for: the query string's,
    else this week's Monday. *)
Definition current_week (req : Request) (env : Env) : string :=
  match args_week_start req with
  | Some w => w
  | None => this_week env
  end.

Definition get_current_assignments (db : DB) (hid : Z) (req : Request) (env : Env)
  : Reply WeekView :=
  let week_start := current_week req env in
  Json (mkWeekView week_start (select_week db hid week_start)).

(** The week [rotate] checks and fills: the JSON body's, else this
    week's Monday. *)
Definition rotate_week (req : Request) (env : Env) : string :=
  str_or (json_week_start req) (this_week env).

(** SELECT id FROM chores WHERE household_id=? ORDER BY id ASC *)
Definition select_chore_ids (db : DB) (hid : Z) : list Z :=
  stable_sort Z.ltb (c_id <$> filter (fun c => c_household_id c = hid) (chores db)).

(** UNIQUE(household_id, week_start, chore_id) *)
Definition unique_conflict (db : DB) (hid : Z) (week_start : string) (chore_id : Z)
  : Prop :=
  Exists (fun a => a_household_id a = hid /\ a_week_start a = week_start
                   /\ a_chore_id a = chore_id) (assignments db).

Definition UNIQUE_FAILED : string :=
  "UNIQUE constraint failed: assignments.household_id, assignments.week_start, assignments.chore_id".

(** INSERT INTO assignments(household_id, week_start, chore_id, member_id,
    status, created_at): sqlite3.IntegrityError when the UNIQUE constraint
    rejects the row.  Foreign keys are not checked on this connection:
    the PRAGMA of [init_db] holds for the connection [init_db] closes. *)
Definition insert_assignment (db : DB) (hid : Z) (week_start : string)
    (chore_id member_id : Z) (created_at : string) : Exception + DB :=
  if bool_decide (unique_conflict db hid week_start chore_id) then
    inl (IntegrityError UNIQUE_FAILED)
  else
    let aid := next_rowid (a_id <$> assignments db) (seq_assignments db) in
    inr (mkDB (households db) (members db) (chores db)
              (assignments db ++
                 [mkAssignment aid hid week_start chore_id member_id
                               "assigned" None created_at])
              (seq_households db) (seq_members db) (seq_chores db) aid).

(** [order[i % len(order)]]; [order] is not empty where [rotate] gets
    here, so the index is in range. *)
Definition cyclic_pick (order : list Z) (i : nat) : Z :=
  default 0 (order !! (i `mod` length order)%nat).

(** The [for chore_id in chores] loop of [rotate], from counter [i]. *)
Fixpoint insert_loop (db : DB) (hid : Z) (week_start : string) (order : list Z)
    (env : Env) (i : nat) (chores : list Z) : Exception + DB :=
  match chores with
  | [] => inr db
  | chore_id :: rest =>
    let member_id := cyclic_pick order i in
    match insert_assignment db hid week_start chore_id member_id (now_iso env i) with
    | inl e => inl e
    | inr db' => insert_loop db' hid week_start order env (S i) rest
    end
  end.

(** The largest rowid [assignments] holds or has held. *)
Definition rowid_base (db : DB) : Z :=
  Z.max (default 0 (sql_max (a_id <$> assignments db))) (seq_assignments db).

(** The database after the rows [rows] were appended to [assignments]. *)
Definition with_new_assignments (db : DB) (rows : list Assignment) : DB :=
  mkDB (households db) (members db) (chores db) (assignments db ++ rows)
       (seq_households db) (seq_members db) (seq_chores db)
       (default (seq_assignments db) (a_id <$> last rows)).

(** The rows the loop writes for [chores], from counter [i] on: the
    chore at position [k] goes to [order[(i + k) % len(order)]]. *)
Definition planned_rows (base : Z) (hid : Z) (week_start : string) (order : list Z)
    (env : Env) (i : nat) (chores : list Z) : list Assignment :=
  imap (fun k chore_id =>
          mkAssignment (base + 1 + Z.of_nat k) hid week_start chore_id
                       (cyclic_pick order (i + k)) "assigned" None
                       (now_iso env (i + k)%nat))
       chores.

Definition is_nil {A} (l : list A) : bool :=
  match l with [] => true | _ => false end.

(** [rotate] when its SELECTs read the database as [seen] and its INSERTs
    meet it as [db]: the two differ when another request commits in
    between.  An exception leaves the handler before [conn.commit()], so
    nothing of the loop is kept. *)
Definition rotate_on (seen db : DB) (hid : Z) (req : Request) (env : Env)
  : Reply WeekView * DB :=
  let week_start := rotate_week req env in
  if 0 <? Z.of_nat (length (week_rows seen hid week_start)) then
    (get_current_assignments db hid req env, db)
  else
    let chores := select_chore_ids seen hid in
    let member_count :=
      Z.of_nat (length (filter (fun m => m_household_id m = hid) (members seen))) in
    if is_nil chores || (member_count =? 0) then
      (JsonError 400 "Need at least 1 chore and 1 member", db)
    else
      let order := pick_member_round_robin seen hid week_start in
      if is_nil order then (JsonError 400 "No members", db)
      else
        match insert_loop db hid week_start order env 0 chores with
        | inl e => (Unhandled e, db)
        | inr db' => (get_current_assignments db' hid req env, db')
        end.

(** [rotate], one request at a time. *)
Definition rotate (db : DB) (hid : Z) (req : Request) (env : Env)
  : Reply WeekView * DB :=
  rotate_on db db hid req env.

(** ** Completion: [complete_assignment] *)

Record CompleteRequest := mkCompleteRequest {
  form : gmap string string;
  json : option (gmap string string) }.

Record CompleteView := mkCompleteView {
  cmv_id : Z; cmv_status : string; cmv_proof_url : option string }.

Definition mark_done (proof_url : option string) (a : Assignment) : Assignment :=
  mkAssignment (a_id a) (a_household_id a) (a_week_start a) (a_chore_id a)
               (a_member_id a) "done" proof_url (a_created_at a).

(** UPDATE assignments SET status='done', proof_url=? WHERE id=? *)
Definition update_done (proof_url : option string) (aid : Z) (rows : list Assignment)
  : list Assignment :=
  (fun a => if bool_decide (a_id a = aid) then mark_done proof_url a else a) <$> rows.

(** [data = request.form if request.form else (request.json or {})] and
    [data.get("proof_url")]. *)
Definition request_proof_url (req : CompleteRequest) : option string :=
  let data :=
    if bool_decide (form req = ∅) then default ∅ (json req) else form req in
  data !! "proof_url".

(** The UPDATE binds [aid]: one that does not fit raises before any row
    is looked at, and the exception leaves the handler. *)
Definition complete_assignment (db : DB) (aid : Z) (req : CompleteRequest)
  : Reply CompleteView * DB :=
  let proof_url := request_proof_url req in
  if negb (fits_int64 aid) then (Unhandled (OverflowError INT_TOO_LARGE), db)
  else
  let rowcount := Z.of_nat (length (filter (fun a => a_id a = aid) (assignments db))) in
  if rowcount =? 0 then (JsonError 404 "not found", db)
  else
    (Json (mkCompleteView aid "done" proof_url),
     mkDB (households db) (members db) (chores db)
          (update_done proof_url aid (assignments db))
          (seq_households db) (seq_members db) (seq_chores db) (seq_assignments db)).

(** ** The service as a whole

    The requests that write.  The GET handlers ([health],
    [get_household], [get_current_assignments]) leave the database as it
    is. *)
Inductive Call :=
| CreateHousehold (name : option string)
| AddMember (hid : Z) (name email : option string)
| AddChore (hid : Z) (title : option string) (cadence : JsonField)
| Rotate (hid : Z) (req : Request)
| CompleteAssignment (aid : Z) (req : CompleteRequest).

Definition handle (db : DB) (c : Call) (env : Env) : DB :=
  match c with
  | CreateHousehold name => (create_household db name env).2
  | AddMember hid name email => (add_member db hid name email env).2
  | AddChore hid title cadence => (add_chore db hid title cadence env).2
  | Rotate hid req => (rotate db hid req env).2
  | CompleteAssignment aid req => (complete_assignment db aid req).2
  end.

(** The databases the service gets to from the empty one of [init_db],
    one request after the other. *)
Inductive reachable : DB -> Prop :=
| reachable_init : reachable empty_db
| reachable_step (db : DB) (c : Call) (env : Env) :
    reachable db -> reachable (handle db c env).

(** The join orders of a household's members, in the order of the rows. *)
Definition join_orders (db : DB) (hid : Z) : list Z :=
  m_join_order <$> filter (fun m => m_household_id m = hid) (members db).

(** The join orders of every household are 1, 2, 3, ... in the order of
    the rows, and the rows are in the order of their ids. *)
Definition members_in_order (db : DB) : Prop :=
  StronglySorted Z.lt (m_id <$> members db)
  /\ forall hid, join_orders db hid = seqZ 1 (Z.of_nat (length (join_orders db hid))).

(** The rows of [chores] are in the order of their ids. *)
Definition chores_in_order (db : DB) : Prop :=
  StronglySorted Z.lt (c_id <$> chores db).

(** ** Consistency of the assignments table *)

(** The columns the UNIQUE constraint of [assignments] is on. *)
Definition assignment_key (a : Assignment) : Z * string * Z :=
  (a_household_id a, a_week_start a, a_chore_id a).

(** The chore and the member of an assignment are rows of the
    assignment's own household. *)
Definition references_ok (db : DB) (a : Assignment) : Prop :=
  (exists c, c ∈ chores db /\ c_id c = a_chore_id a
             /\ c_household_id c = a_household_id a)
  /\ (exists m, m ∈ members db /\ m_id m = a_member_id a
                /\ m_household_id m = a_household_id a).

(** A row is "assigned" without a proof, or "done". *)
Definition status_ok (a : Assignment) : Prop :=
  (a_status a = "assigned" /\ a_proof_url a = None) \/ a_status a = "done".

Definition assignments_ok (db : DB) : Prop :=
  StronglySorted Z.lt (a_id <$> assignments db)
  /\ NoDup (assignment_key <$> assignments db)
  /\ Forall (references_ok db) (assignments db)
  /\ Forall status_ok (assignments db).

(** A row of the reply of [get_current_assignments] for the assignment
    [a]: the assignment itself with the title of its chore and the name
    of its member. *)
Definition view_of (db : DB) (a : Assignment) (v : AssignmentView) : Prop :=
  av_assignment v = a
  /\ (exists c, c ∈ chores db /\ c_id c = a_chore_id a /\ av_chore_title v = c_title c)
  /\ (exists m, m ∈ members db /\ m_id m = a_member_id a
                /\ av_member_name v = m_name m).

(** The number of rows of [rows] that go to member [m]. *)
Definition load (m : Z) (rows : list Assignment) : nat :=
  length (filter (fun a => a_member_id a = m) rows).

(** What position [j] of the fair order gets of [n] chores dealt out
    over [k] members. *)
Definition share (n k j : nat) : nat :=
  (n `div` k + (if decide (j < n `mod` k)%nat then 1 else 0))%nat.


(** ** Reading a household: [get_household] *)

Record HouseholdDetail := mkHouseholdDetail {
  hd_household : Household;
  hd_members : list Member;
  hd_chores : list Chore }.

(** SELECT * FROM chores WHERE household_id=? ORDER BY id DESC *)
Definition select_chores_desc (db : DB) (hid : Z) : list Chore :=
  stable_sort (fun x y => c_id y <? c_id x)
    (filter (fun c => c_household_id c = hid) (chores db)).

(** [get_household]: the first SELECT binds [hid], and one that does not
    fit raises there.  [fetchone()] takes the first row with the id, and
    the handler answers 404 when there is none. *)
Definition get_household (db : DB) (hid : Z) : Reply HouseholdDetail :=
  if negb (fits_int64 hid) then Unhandled (OverflowError INT_TOO_LARGE)
  else
    match filter (fun h => h_id h = hid) (households db) with
    | [] => JsonError 404 "not found"
    | h :: _ =>
      Json (mkHouseholdDetail h (select_members db hid) (select_chores_desc db hid))
    end.

(** The rows of [households] are in the order of their ids. *)
Definition households_in_order (db : DB) : Prop :=
  StronglySorted Z.lt (h_id <$> households db).

(** The columns of an assignment that are written once. *)
Definition assignment_core (a : Assignment) : Z * Z * string * Z * Z * string :=
  (a_id a, a_household_id a, a_week_start a, a_chore_id a, a_member_id a,
   a_created_at a).

(** The databases the service gets to from [db], one request after the
    other. *)
Inductive reaches (db : DB) : DB -> Prop :=
| reaches_here : reaches db db
| reaches_step (db' : DB) (c : Call) (env : Env) :
    reaches db db' -> reaches db (handle db' c env).

(** ** Sample data

    The household of the spec's test cases: four members who joined in
    the order of their ids. *)

Definition sample_members : list Member :=
  [mkMember 1 1 "M1" None 1 "t"; mkMember 2 1 "M2" None 2 "t";
   mkMember 3 1 "M3" None 3 "t"; mkMember 4 1 "M4" None 4 "t"].


(** A database with one assignment of week 2024-06-03, given to member 2. *)
Definition sample_week_db : DB :=
  mkDB [mkHousehold 1 "H" "t"] sample_members [mkChore 1 1 "C1" "weekly" "t"]
       [mkAssignment 1 1 "2024-06-03" 1 2 "assigned" None "t"] 1 4 1 1.

(** Monday 2024-06-10, with a clock that stands still. *)
Definition sample_env : Env := mkEnv (mkdate 739047 eq_refl) (fun _ => "t").

(** A household built through the handlers: member 1 and chore 1, the
    week of 2024-06-03 rotated (chore 1 goes to member 1), then members
    2 to 4 and chores 2 to 5. *)
Definition sample_db : DB :=
  let db := (create_household empty_db (Some "H") sample_env).2 in
  let db := (add_member db 1 (Some "M1") None sample_env).2 in
  let db := (add_chore db 1 (Some "C1") Missing sample_env).2 in
  let db := (rotate db 1 (mkRequest (Some "2024-06-03") None) sample_env).2 in
  let db := (add_member db 1 (Some "M2") None sample_env).2 in
  let db := (add_member db 1 (Some "M3") None sample_env).2 in
  let db := (add_member db 1 (Some "M4") None sample_env).2 in
  let db := (add_chore db 1 (Some "C2") Missing sample_env).2 in
  let db := (add_chore db 1 (Some "C3") Missing sample_env).2 in
  let db := (add_chore db 1 (Some "C4") Missing sample_env).2 in
  (add_chore db 1 (Some "C5") Missing sample_env).2.

(** A rotate request that names its week in the body and in the query
    string alike. *)
Definition sample_request (week_start : string) : Request :=
  mkRequest (Some week_start) (Some week_start).

(** The sample household after its week of 2024-06-10 was rotated. *)
Definition sample_db_rotated : DB :=
  (rotate sample_db 1 (sample_request "2024-06-10") sample_env).2.

(** The sample household with a fifth member. *)
Definition sample_db_joined : DB :=
  (add_member sample_db 1 (Some "M5") None sample_env).2.

(** Saturday 2024-06-08. *)
Definition sample_saturday : Env := mkEnv (mkdate 739045 eq_refl) (fun _ => "t").

(** * Properties *)

(** ** The sort *)

Section SortFacts.
Context {A : Type} (ltb : A -> A -> bool).

Lemma sort_insert_Permutation (x : A) (l : list A) :
  sort_insert ltb x l ≡ₚ x :: l.
Proof.
  induction l as [|y l IH]; simpl; [done|].
  destruct (ltb y x); [|done].
  rewrite IH. apply Permutation_swap.
Qed.

Lemma stable_sort_Permutation (l : list A) : stable_sort ltb l ≡ₚ l.
Proof.
  induction l as [|x l IH]; simpl; [done|].
  rewrite sort_insert_Permutation. by rewrite IH.
Qed.

Lemma stable_sort_length (l : list A) : length (stable_sort ltb l) = length l.
Proof. by rewrite stable_sort_Permutation. Qed.

Hypothesis ltb_asym : forall x y, ltb x y = true -> ltb y x = false.
Hypothesis not_after_trans : forall x y z, not_after ltb x y -> not_after ltb y z -> not_after ltb x z.

Lemma sort_insert_sorted (x : A) (l : list A) :
  StronglySorted (not_after ltb) l -> StronglySorted (not_after ltb) (sort_insert ltb x l).
Proof.
  induction 1 as [|y l Hs IH Hy]; simpl.
  - repeat constructor.
  - destruct (ltb y x) eqn:Hyx.
    + constructor; [done|].
      rewrite sort_insert_Permutation. constructor; [|done].
      by apply ltb_asym.
    + constructor; [by constructor|].
      constructor; [done|].
      eapply Forall_impl; [exact Hy|]. intros z Hz.
      by apply not_after_trans with y.
Qed.

Lemma stable_sort_sorted (l : list A) : StronglySorted (not_after ltb) (stable_sort ltb l).
Proof.
  induction l as [|x l IH]; simpl; [constructor|].
  by apply sort_insert_sorted.
Qed.

(** A list already in order is left as it is. *)
Lemma stable_sort_id (l : list A) :
  StronglySorted (not_after ltb) l -> stable_sort ltb l = l.
Proof.
  induction 1 as [|x l Hs IH Hx]; simpl; [done|].
  rewrite IH. destruct l as [|y l]; simpl; [done|].
  apply Forall_cons in Hx as [Hxy _]. unfold not_after in Hxy. by rewrite Hxy.
Qed.

End SortFacts.

Lemma StronglySorted_weaken {A} (R S : A -> A -> Prop) (l : list A) :
  (forall x y, R x y -> S x y) -> StronglySorted R l -> StronglySorted S l.
Proof.
  intros HRS. induction 1 as [|x l Hs IH Hx]; constructor; [done|].
  eapply Forall_impl; [exact Hx|]. auto.
Qed.

(** ** The order of scores *)

Lemma score_ltb_spec (x y : Score) : score_ltb y x = false <-> score_le x y.
Proof.
  destruct x as [[c1 j1] i1], y as [[c2 j2] i2]. unfold score_ltb, score_le.
  destruct (Z.eqb_spec c2 c1); [destruct (Z.eqb_spec j2 j1)|];
    rewrite Z.ltb_ge; lia.
Qed.

Lemma score_ltb_asym (x y : Score) : score_ltb x y = true -> score_ltb y x = false.
Proof.
  destruct x as [[c1 j1] i1], y as [[c2 j2] i2]. unfold score_ltb.
  destruct (Z.eqb_spec c1 c2), (Z.eqb_spec c2 c1),
    (Z.eqb_spec j1 j2), (Z.eqb_spec j2 j1);
    rewrite Z.ltb_lt, Z.ltb_ge; lia.
Qed.

Lemma score_not_after_trans (x y z : Score) :
  not_after score_ltb x y -> not_after score_ltb y z -> not_after score_ltb x z.
Proof.
  unfold not_after. rewrite !score_ltb_spec.
  destruct x as [[c1 j1] i1], y as [[c2 j2] i2], z as [[c3 j3] i3].
  unfold score_le. lia.
Qed.

Lemma sorted_scores (l : list Score) : StronglySorted score_le (stable_sort score_ltb l).
Proof.
  apply StronglySorted_weaken with (R := not_after score_ltb).
  - intros x y. apply score_ltb_spec.
  - apply stable_sort_sorted; [apply score_ltb_asym | apply score_not_after_trans].
Qed.

Lemma fair_order_unfold (members : list Member) (hist : gmap Z Z) :
  fair_order members hist
  = (fun s : Score => s.2) <$> stable_sort score_ltb (score_of hist <$> members).
Proof. by destruct members. Qed.

Lemma fair_order_Permutation (members : list Member) (hist : gmap Z Z) :
  fair_order members hist ≡ₚ m_id <$> members.
Proof.
  rewrite fair_order_unfold, stable_sort_Permutation, <- list_fmap_compose.
  done.
Qed.

(** ** C3: the fairness ranker sorts by (count, join order, id) *)


(** ** C10: the rotation order is a permutation of the members *)

Lemma select_members_Permutation (db : DB) (hid : Z) :
  select_members db hid ≡ₚ filter (fun m => m_household_id m = hid) (members db).
Proof. apply stable_sort_Permutation. Qed.

Lemma pick_member_round_robin_Permutation (db : DB) (hid : Z) (week_start : string) :
  pick_member_round_robin db hid week_start
  ≡ₚ m_id <$> filter (fun m => m_household_id m = hid) (members db).
Proof.
  unfold pick_member_round_robin.
  by rewrite fair_order_Permutation, select_members_Permutation.
Qed.

(** C10.  The order the ranker returns is a permutation of the ids of
    the household's members, whatever the counts: same length, same
    elements, each as often as in the member list, so no member is
    dropped or repeated. *)
Theorem fair_order_is_permutation :
  (forall (members : list Member) (hist : gmap Z Z),
     fair_order members hist ≡ₚ m_id <$> members)
  /\ (forall (db : DB) (hid : Z) (week_start : string),
       let ids := m_id <$> filter (fun m => m_household_id m = hid) (members db) in
       let order := pick_member_round_robin db hid week_start in
       order ≡ₚ ids
       /\ length order = length ids
       /\ (forall x, x ∈ order <-> x ∈ ids)
       /\ (NoDup order <-> NoDup ids)).
Proof.
  split; [apply fair_order_Permutation|].
  intros db hid week_start ids order.
  assert (order ≡ₚ ids) as Hp by apply pick_member_round_robin_Permutation.
  split; [done|]. split; [by rewrite Hp|].
  split; [intros x; by rewrite Hp | by rewrite Hp].
Qed.

(** ** C5: the history counts earlier weeks only *)

Lemma dict_of_rows_snoc (rows : list (Z * Z)) (k v : Z) :
  dict_of_rows (rows ++ [(k, v)]) = <[k := v]> (dict_of_rows rows).
Proof. unfold dict_of_rows. by rewrite foldl_app. Qed.

Lemma dict_of_keys_lookup (f : Z -> Z) (keys : list Z) (k : Z) :
  dict_of_rows ((fun m => (m, f m)) <$> keys) !! k
  = if bool_decide (k ∈ keys) then Some (f k) else None.
Proof.
  induction keys as [|m keys IH] using rev_ind.
  - by rewrite bool_decide_eq_false_2 by apply not_elem_of_nil.
  - rewrite fmap_app. simpl. rewrite dict_of_rows_snoc.
    destruct (decide (m = k)) as [->|Hne].
    + rewrite lookup_insert_eq. rewrite bool_decide_eq_true_2; [done|].
      apply elem_of_app. right. apply list_elem_of_singleton. done.
    + rewrite lookup_insert_ne by done. rewrite IH.
      rewrite (bool_decide_ext (k ∈ keys ++ [m]) (k ∈ keys)); [done|].
      rewrite elem_of_app, list_elem_of_singleton.
      split; [intros [?|?]; [done|congruence] | by left].
Qed.

Lemma filter_eq_not_elem (ids : list Z) (m : Z) :
  m ∉ ids -> filter (fun x => x = m) ids = [].
Proof.
  induction ids as [|x ids IH]; [done|].
  rewrite not_elem_of_cons. intros [Hne Hm].
  rewrite filter_cons_False by congruence. auto.
Qed.

Lemma group_count_lookup (ids : list Z) (m : Z) :
  default 0 (dict_of_rows (group_count ids) !! m)
  = Z.of_nat (length (filter (fun x => x = m) ids)).
Proof.
  unfold group_count.
  rewrite (dict_of_keys_lookup
             (fun m => Z.of_nat (length (filter (fun x => x = m) ids)))).
  case_bool_decide as Hm; [done|].
  rewrite elem_of_remove_dups in Hm. by rewrite filter_eq_not_elem.
Qed.

Lemma filter_fmap_length {A} (f : A -> Z) (m : Z) (l : list A) :
  length (filter (fun x => x = m) (f <$> l)) = length (filter (fun a => f a = m) l).
Proof.
  induction l as [|a l IH]; [done|]. rewrite fmap_cons.
  destruct (decide (f a = m)) as [Ha|Ha].
  - rewrite !filter_cons_True by done. simpl. by rewrite IH.
  - by rewrite !filter_cons_False by done.
Qed.

Lemma past_count_spec (db : DB) (hid : Z) (week_start : string) (m : Z) :
  past_count db hid week_start m
  = Z.of_nat (length (filter (fun a => a_member_id a = m)
                             (past_assignments db hid week_start))).
Proof.
  unfold past_count, select_history.
  by rewrite group_count_lookup, filter_fmap_length.
Qed.

Lemma string_compare_refl (s : string) : String.compare s s = Eq.
Proof.
  induction s as [|c s IH]; simpl; [done|].
  unfold Ascii.compare. by rewrite N.compare_refl.
Qed.

Lemma string_ltb_irrefl (s : string) : String.ltb s s = false.
Proof. unfold String.ltb. by rewrite string_compare_refl. Qed.

Lemma past_assignments_skip (db : DB) (hid : Z) (week_start : string)
    (before after : list Assignment) (a : Assignment) :
  String.ltb (a_week_start a) week_start = false ->
  past_assignments (with_assignments db (before ++ a :: after)) hid week_start
  = past_assignments (with_assignments db (before ++ after)) hid week_start.
Proof.
  intros Ha. unfold past_assignments. simpl.
  rewrite !filter_app. f_equal.
  rewrite filter_cons_False; [done|]. intros [_ H]. congruence.
Qed.

Lemma pick_member_round_robin_scores (db : DB) (hid : Z) (week_start : string) :
  pick_member_round_robin db hid week_start
  = (fun s : Score => s.2) <$>
      stable_sort score_ltb
        ((fun m => (past_count db hid week_start (m_id m), m_join_order m, m_id m))
           <$> select_members db hid).
Proof. unfold pick_member_round_robin. by rewrite fair_order_unfold. Qed.

Lemma pick_member_round_robin_skip (db : DB) (hid : Z) (week_start : string)
    (before after : list Assignment) (a : Assignment) :
  String.ltb (a_week_start a) week_start = false ->
  pick_member_round_robin (with_assignments db (before ++ a :: after)) hid week_start
  = pick_member_round_robin (with_assignments db (before ++ after)) hid week_start.
Proof.
  intros Ha. unfold pick_member_round_robin, select_history.
  by rewrite (past_assignments_skip db hid week_start before after a Ha).
Qed.

(** C5.  The count the ranker uses for a member is the number of the
    household's assignments to that member whose week is strictly
    before the target week; a row of the target week itself (or of a
    later one) changes neither the counts nor the order, and a member
    with no earlier assignment counts 0. *)
Theorem history_counts_earlier_weeks_only :
  (forall (db : DB) (hid : Z) (week_start : string),
     pick_member_round_robin db hid week_start
     = (fun s : Score => s.2) <$>
         stable_sort score_ltb
           ((fun m => (past_count db hid week_start (m_id m), m_join_order m, m_id m))
              <$> select_members db hid))
  /\ (forall (db : DB) (hid : Z) (week_start : string) (m : Z),
        past_count db hid week_start m
        = Z.of_nat (length (filter
            (fun a => a_member_id a = m /\ a_household_id a = hid
                      /\ String.ltb (a_week_start a) week_start = true)
            (assignments db))))
  /\ (forall (db : DB) (hid : Z) (week_start : string) (m : Z)
             (before after : list Assignment) (a : Assignment),
        a_week_start a = week_start ->
        past_count (with_assignments db (before ++ a :: after)) hid week_start m
        = past_count (with_assignments db (before ++ after)) hid week_start m
        /\ pick_member_round_robin
             (with_assignments db (before ++ a :: after)) hid week_start
           = pick_member_round_robin
               (with_assignments db (before ++ after)) hid week_start)
  /\ (forall (db : DB) (hid : Z) (week_start : string) (m : Z),
        Forall (fun a => a_member_id a <> m) (past_assignments db hid week_start) ->
        past_count db hid week_start m = 0)
  /\ past_count sample_week_db 1 "2024-06-03" 2 = 0
  /\ past_count sample_week_db 1 "2024-06-10" 2 = 1.
Proof.
  split; [apply pick_member_round_robin_scores|].
  split.
  { intros db hid week_start m. rewrite past_count_spec.
    unfold past_assignments. by rewrite list_filter_filter. }
  split.
  { intros db hid week_start m before after a <-.
    pose proof (string_ltb_irrefl (a_week_start a)) as Ha.
    split; [|by apply pick_member_round_robin_skip].
    unfold past_count, select_history.
    by rewrite (past_assignments_skip db hid _ before after a Ha). }
  split; [|by vm_compute].
  intros db hid week_start m Hm. rewrite past_count_spec.
  induction Hm as [|a l Ha Hl IH]; [done|].
  by rewrite filter_cons_False.
Qed.

(** ** The insertion loop of [rotate] *)

Lemma foldr_max_upper (l : list Z) (y : Z) :
  Forall (fun x => x <= foldr Z.max y l) (y :: l).
Proof.
  induction l as [|z l IH]; simpl.
  - repeat constructor. lia.
  - apply Forall_cons in IH as [Hy Hl].
    repeat constructor; try lia.
    eapply Forall_impl; [exact Hl|]. simpl. lia.
Qed.

Lemma sql_max_upper (l : list Z) (x : Z) : x ∈ l -> x <= default 0 (sql_max l).
Proof.
  destruct l as [|y l]; [by intros ?%elem_of_nil|]. simpl.
  intros Hx. by apply (proj1 (Forall_forall _ _) (foldr_max_upper l y)).
Qed.

Lemma sql_max_snoc (l : list Z) (x : Z) :
  Forall (fun y => y <= x) l -> sql_max (l ++ [x]) = Some x.
Proof.
  destruct l as [|y l]; [done|]. simpl.
  intros [Hy Hl]%Forall_cons. f_equal.
  induction Hl as [|z l Hz Hl IH]; simpl; lia.
Qed.

Lemma next_rowid_fresh (ids : list Z) (seq : Z) :
  Forall (fun y => y < next_rowid ids seq) ids.
Proof.
  apply Forall_forall. intros y Hy%sql_max_upper. unfold next_rowid. lia.
Qed.

Lemma rowid_base_insert (db : DB) (a : Assignment) :
  a_id a = rowid_base db + 1 ->
  rowid_base (with_new_assignments db [a]) = rowid_base db + 1.
Proof.
  intros Ha. unfold rowid_base at 1. simpl.
  rewrite fmap_app. simpl. rewrite sql_max_snoc.
  - rewrite Ha. simpl. lia.
  - rewrite Ha. eapply Forall_impl; [apply (next_rowid_fresh _ (seq_assignments db))|].
    unfold next_rowid, rowid_base. simpl. lia.
Qed.

Lemma insert_assignment_ok (db : DB) (hid : Z) (week_start : string)
    (chore_id member_id : Z) (created_at : string) :
  ~ unique_conflict db hid week_start chore_id ->
  insert_assignment db hid week_start chore_id member_id created_at
  = inr (with_new_assignments db
           [mkAssignment (rowid_base db + 1) hid week_start chore_id member_id
                         "assigned" None created_at]).
Proof.
  intros Hc. unfold insert_assignment. by rewrite bool_decide_eq_false_2.
Qed.

Lemma insert_assignment_conflict (db : DB) (hid : Z) (week_start : string)
    (chore_id member_id : Z) (created_at : string) :
  unique_conflict db hid week_start chore_id ->
  insert_assignment db hid week_start chore_id member_id created_at
  = inl (IntegrityError UNIQUE_FAILED).
Proof.
  intros Hc. unfold insert_assignment. by rewrite bool_decide_eq_true_2.
Qed.

Lemma unique_conflict_new (db : DB) (a : Assignment) (hid : Z) (week_start : string)
    (chore_id : Z) :
  unique_conflict (with_new_assignments db [a]) hid week_start chore_id
  <-> unique_conflict db hid week_start chore_id
      \/ (a_household_id a = hid /\ a_week_start a = week_start
          /\ a_chore_id a = chore_id).
Proof.
  unfold unique_conflict. simpl. rewrite Exists_app, Exists_cons, Exists_nil. tauto.
Qed.

Lemma with_new_assignments_app (db : DB) (a : Assignment) (rows : list Assignment) :
  with_new_assignments (with_new_assignments db [a]) rows
  = with_new_assignments db (a :: rows).
Proof.
  unfold with_new_assignments. simpl. rewrite <- app_assoc. simpl.
  f_equal. destruct rows as [|b rows]; [done|].
  rewrite (last_cons_cons a b rows).
  destruct (last (b :: rows)) eqn:E; [done|]. by apply last_None in E.
Qed.

Lemma insert_loop_cases (chores : list Z) :
  forall (db : DB) (hid : Z) (week_start : string) (order : list Z) (env : Env)
         (i : nat),
    insert_loop db hid week_start order env i chores
    = inl (IntegrityError UNIQUE_FAILED)
    \/ insert_loop db hid week_start order env i chores
       = inr (with_new_assignments db
                (planned_rows (rowid_base db) hid week_start order env i chores)).
Proof.
  induction chores as [|c rest IH]; intros db hid week_start order env i.
  - right. simpl. unfold with_new_assignments. simpl. rewrite app_nil_r.
    by destruct db.
  - simpl. destruct (decide (unique_conflict db hid week_start c)) as [Hc|Hc].
    + left. by rewrite insert_assignment_conflict.
    + rewrite insert_assignment_ok by done.
      destruct (IH (with_new_assignments db
                      [mkAssignment (rowid_base db + 1) hid week_start c
                         (cyclic_pick order i) "assigned" None (now_iso env i)])
                   hid week_start order env (S i)) as [->| ->]; [by left|right].
      rewrite rowid_base_insert by done.
      rewrite with_new_assignments_app. do 2 f_equal.
      unfold planned_rows. simpl. rewrite Nat.add_0_r, Z.add_0_r. f_equal.
      apply imap_ext. intros k x _. simpl.
      rewrite Nat.add_succ_r. f_equal. lia.
Qed.

Lemma insert_loop_ok (chores : list Z) :
  forall (db : DB) (hid : Z) (week_start : string) (order : list Z) (env : Env)
         (i : nat),
    NoDup chores ->
    Forall (fun c => ~ unique_conflict db hid week_start c) chores ->
    insert_loop db hid week_start order env i chores
    = inr (with_new_assignments db
             (planned_rows (rowid_base db) hid week_start order env i chores)).
Proof.
  induction chores as [|c rest IH]; intros db hid week_start order env i Hnd Hfree.
  - simpl. unfold with_new_assignments. simpl. rewrite app_nil_r. by destruct db.
  - apply NoDup_cons in Hnd as [Hc Hnd]. apply Forall_cons in Hfree as [Hfc Hfree].
    simpl. rewrite insert_assignment_ok by done.
    rewrite IH; [|done|].
    + rewrite rowid_base_insert by done.
      rewrite with_new_assignments_app. do 2 f_equal.
      unfold planned_rows. simpl. rewrite Nat.add_0_r, Z.add_0_r. f_equal.
      apply imap_ext. intros k x _. simpl.
      rewrite Nat.add_succ_r. f_equal. lia.
    + apply Forall_forall. intros c' Hc' [Hold|(_ & _ & Heq)]%unique_conflict_new.
      * by apply (proj1 (Forall_forall _ _) Hfree c').
      * simpl in Heq. by subst c'.
Qed.

Lemma insert_loop_conflict (chores : list Z) :
  forall (db : DB) (hid : Z) (week_start : string) (order : list Z) (env : Env)
         (i : nat),
    Exists (fun c => unique_conflict db hid week_start c) chores ->
    insert_loop db hid week_start order env i chores
    = inl (IntegrityError UNIQUE_FAILED).
Proof.
  induction chores as [|c rest IH]; intros db hid week_start order env i Hex.
  - by apply Exists_nil in Hex.
  - simpl. destruct (decide (unique_conflict db hid week_start c)) as [Hc|Hc].
    + by rewrite insert_assignment_conflict.
    + rewrite insert_assignment_ok by done.
      apply Exists_cons in Hex as [?|Hex]; [done|].
      apply IH. eapply Exists_impl; [exact Hex|].
      intros c' Hc'. apply unique_conflict_new. by left.
Qed.

(** ** The branches of [rotate] *)

Lemma week_check (l : list Assignment) :
  (0 <? Z.of_nat (length l)) = negb (is_nil l).
Proof. by destruct l. Qed.

Lemma is_nil_false {A} (l : list A) : is_nil l = false <-> l <> [].
Proof. by destruct l. Qed.

Lemma is_nil_true {A} (l : list A) : is_nil l = true <-> l = [].
Proof. by destruct l. Qed.

Lemma stable_sort_nil {A} (ltb : A -> A -> bool) (l : list A) :
  stable_sort ltb l = [] <-> l = [].
Proof.
  split; [|by intros ->].
  intros H. apply (f_equal length) in H. rewrite stable_sort_length in H.
  by destruct l.
Qed.

Lemma select_chore_ids_nil (db : DB) (hid : Z) :
  select_chore_ids db hid = []
  <-> filter (fun c => c_household_id c = hid) (chores db) = [].
Proof.
  unfold select_chore_ids. rewrite stable_sort_nil.
  split; [apply fmap_nil_inv | by intros ->].
Qed.

Lemma pick_member_round_robin_nil (db : DB) (hid : Z) (week_start : string) :
  pick_member_round_robin db hid week_start = []
  <-> filter (fun m => m_household_id m = hid) (members db) = [].
Proof.
  pose proof (pick_member_round_robin_Permutation db hid week_start) as Hp.
  split; intros H.
  - rewrite H in Hp. apply Permutation_nil_l in Hp.
    symmetry in Hp. by apply fmap_nil_inv in Hp.
  - rewrite H in Hp. by apply Permutation_nil_r in Hp.
Qed.

Lemma rotate_on_replay (seen db : DB) (hid : Z) (req : Request) (env : Env) :
  week_rows seen hid (rotate_week req env) <> [] ->
  rotate_on seen db hid req env = (get_current_assignments db hid req env, db).
Proof.
  intros H. unfold rotate_on. rewrite week_check.
  by rewrite (proj2 (is_nil_false _) H).
Qed.

Lemma rotate_on_reject (seen db : DB) (hid : Z) (req : Request) (env : Env) :
  week_rows seen hid (rotate_week req env) = [] ->
  filter (fun c => c_household_id c = hid) (chores seen) = []
  \/ filter (fun m => m_household_id m = hid) (members seen) = [] ->
  rotate_on seen db hid req env
  = (JsonError 400 "Need at least 1 chore and 1 member", db).
Proof.
  intros Hw H. unfold rotate_on. rewrite Hw. simpl.
  destruct H as [H|H].
  - by rewrite (proj2 (select_chore_ids_nil seen hid) H).
  - rewrite H. simpl. by rewrite orb_true_r.
Qed.

Lemma rotate_on_assign (seen db : DB) (hid : Z) (req : Request) (env : Env) :
  week_rows seen hid (rotate_week req env) = [] ->
  filter (fun c => c_household_id c = hid) (chores seen) <> [] ->
  filter (fun m => m_household_id m = hid) (members seen) <> [] ->
  rotate_on seen db hid req env
  = match insert_loop db hid (rotate_week req env)
            (pick_member_round_robin seen hid (rotate_week req env)) env 0
            (select_chore_ids seen hid) with
    | inl e => (Unhandled e, db)
    | inr db' => (get_current_assignments db' hid req env, db')
    end.
Proof.
  intros Hw Hc Hm. unfold rotate_on. rewrite Hw. simpl.
  assert (is_nil (select_chore_ids seen hid) = false) as ->.
  { apply is_nil_false. by rewrite select_chore_ids_nil. }
  assert ((Z.of_nat (length (filter (fun m => m_household_id m = hid) (members seen)))
           =? 0) = false) as ->.
  { apply Z.eqb_neq. destruct (filter _ (members seen)); [done|]. simpl. lia. }
  simpl.
  assert (is_nil (pick_member_round_robin seen hid (rotate_week req env)) = false)
    as ->; [|done].
  apply is_nil_false. by rewrite pick_member_round_robin_nil.
Qed.

(** ** C6: no chores or no members *)

(** C6.  When the week has no assignment yet and the household has no
    chore or no member, [rotate] answers 400 with the error "Need at
    least 1 chore and 1 member" and leaves the database as it was: no
    assignment row is written. *)
Theorem rotate_insufficient_resources :
  forall (db : DB) (hid : Z) (req : Request) (env : Env),
    week_rows db hid (rotate_week req env) = [] ->
    filter (fun c => c_household_id c = hid) (chores db) = []
    \/ filter (fun m => m_household_id m = hid) (members db) = [] ->
    rotate db hid req env = (JsonError 400 "Need at least 1 chore and 1 member", db)
    /\ assignments (rotate db hid req env).2 = assignments db.
Proof.
  intros db hid req env Hw H. unfold rotate.
  by rewrite rotate_on_reject.
Qed.

(** A household with two chores and no member, and one with a member
    and no chore. *)
Lemma rotate_insufficient_resources_witness :
  rotate (mkDB [] [] [mkChore 1 7 "C1" "weekly" "t"; mkChore 2 7 "C2" "weekly" "t"]
               [] 0 0 2 0) 7 (sample_request "2024-06-10") sample_env
  = (JsonError 400 "Need at least 1 chore and 1 member",
     mkDB [] [] [mkChore 1 7 "C1" "weekly" "t"; mkChore 2 7 "C2" "weekly" "t"]
          [] 0 0 2 0)
  /\ (rotate (mkDB [] [mkMember 1 7 "M1" None 1 "t"] [] [] 0 1 0 0) 7
             (mkRequest None None) sample_env).1
     = JsonError 400 "Need at least 1 chore and 1 member".
Proof.
  split.
  - apply (rotate_insufficient_resources
             (mkDB [] [] [mkChore 1 7 "C1" "weekly" "t"; mkChore 2 7 "C2" "weekly" "t"]
                   [] 0 0 2 0) 7 (sample_request "2024-06-10") sample_env).
    + reflexivity.
    + right. reflexivity.
  - pose proof (rotate_insufficient_resources
             (mkDB [] [mkMember 1 7 "M1" None 1 "t"] [] [] 0 1 0 0) 7
             (mkRequest None None) sample_env eq_refl (or_introl eq_refl)) as [H _].
    by rewrite H.
Defined.

(** ** Chores in the databases the service gets to *)

Lemma rotate_chores (db : DB) (hid : Z) (req : Request) (env : Env) :
  chores (rotate db hid req env).2 = chores db.
Proof.
  unfold rotate, rotate_on.
  repeat (match goal with |- context [if ?b then _ else _] => destruct b end;
          simpl; try done).
  destruct (insert_loop_cases (select_chore_ids db hid) db hid (rotate_week req env)
              (pick_member_round_robin db hid (rotate_week req env)) env 0)
    as [-> | ->]; done.
Qed.

Lemma handle_chores_in_order (db : DB) (c : Call) (env : Env) :
  chores_in_order db -> chores_in_order (handle db c env).
Proof.
  unfold chores_in_order. intros H.
  destruct c as [name|hid name email|hid title cadence|hid req|aid req]; simpl.
  - unfold create_household. by destruct (falsy name).
  - unfold add_member, add_member_on. by destruct (falsy name).
  - unfold add_chore. destruct (falsy title); [done|].
    destruct (get_or cadence "weekly"); [|done]. simpl.
    rewrite fmap_app. apply StronglySorted_app_2; [|done|repeat constructor].
    intros x y Hx ->%list_elem_of_singleton.
    by apply (proj1 (Forall_forall _ _) (next_rowid_fresh _ (seq_chores db))).
  - by rewrite rotate_chores.
  - unfold complete_assignment. destruct (fits_int64 aid); [|done].
    by destruct (_ =? 0).
Qed.

Lemma reachable_chores_in_order (db : DB) : reachable db -> chores_in_order db.
Proof.
  induction 1 as [|db c env _ IH]; [constructor|by apply handle_chores_in_order].
Qed.

Lemma sorted_lt_NoDup (l : list Z) : StronglySorted Z.lt l -> NoDup l.
Proof.
  induction 1 as [|x l Hs IH Hx]; constructor; [|done].
  intros Hin. pose proof (proj1 (Forall_forall _ _) Hx x Hin). lia.
Qed.

Lemma sorted_filter_ids (P : Chore -> Prop) `{!forall c, Decision (P c)}
    (l : list Chore) :
  StronglySorted Z.lt (c_id <$> l) -> StronglySorted Z.lt (c_id <$> filter P l).
Proof.
  induction l as [|c l IH]; [done|]. rewrite fmap_cons.
  intros [Hc Hl]%StronglySorted_cons. rewrite filter_cons.
  destruct (decide (P c)); [|auto].
  rewrite fmap_cons. constructor; [auto|].
  apply Forall_forall. intros y (c' & -> & [_ Hc']%list_elem_of_filter)%list_elem_of_fmap.
  apply (proj1 (Forall_forall _ _) Hc). by apply list_elem_of_fmap_2.
Qed.

(** With the rows in the order of their ids, ORDER BY id changes
    nothing: the chores come in the order of their creation. *)
Lemma select_chore_ids_in_order (db : DB) (hid : Z) :
  chores_in_order db ->
  select_chore_ids db hid
  = c_id <$> filter (fun c => c_household_id c = hid) (chores db).
Proof.
  intros H. unfold select_chore_ids. apply stable_sort_id.
  apply StronglySorted_weaken with (R := Z.lt).
  - unfold not_after. intros x y Hxy. apply Z.ltb_ge. lia.
  - by apply sorted_filter_ids.
Qed.

(** ** C4: chores are dealt out cyclically over the fair order *)

Lemma select_chore_ids_Permutation (db : DB) (hid : Z) :
  select_chore_ids db hid
  ≡ₚ c_id <$> filter (fun c => c_household_id c = hid) (chores db).
Proof. apply stable_sort_Permutation. Qed.

Lemma select_chore_ids_NoDup (db : DB) (hid : Z) :
  NoDup (c_id <$> chores db) -> NoDup (select_chore_ids db hid).
Proof.
  intros Hnd. rewrite select_chore_ids_Permutation.
  eapply sublist_NoDup; [exact Hnd|].
  apply fmap_sublist, sublist_filter.
Qed.

Lemma select_chore_ids_sorted (db : DB) (hid : Z) :
  StronglySorted Z.le (select_chore_ids db hid).
Proof.
  apply StronglySorted_weaken with (R := not_after Z.ltb).
  - unfold not_after. intros x y. rewrite Z.ltb_ge. lia.
  - apply stable_sort_sorted; unfold not_after; intros *;
      rewrite ?Z.ltb_lt, ?Z.ltb_ge; lia.
Qed.

Lemma sorted_strict (l : list Z) :
  StronglySorted Z.le l -> NoDup l -> StronglySorted Z.lt l.
Proof.
  induction 1 as [|x l Hs IH Hx]; intros Hnd; [constructor|].
  apply NoDup_cons in Hnd as [Hxl Hnd]. constructor; [auto|].
  apply Forall_forall. intros y Hy.
  pose proof (proj1 (Forall_forall _ _) Hx y Hy).
  assert (x <> y) by (intros ->; done). lia.
Qed.

Lemma filter_all {A} (P : A -> Prop) `{!forall x, Decision (P x)} (l : list A) :
  Forall P l -> filter P l = l.
Proof.
  induction 1 as [|x l Hx Hl IH]; [done|].
  rewrite filter_cons_True by done. by rewrite IH.
Qed.

Lemma planned_rows_week (base hid : Z) (week_start : string) (order : list Z)
    (env : Env) (i : nat) (chores : list Z) :
  Forall (fun a => a_household_id a = hid /\ a_week_start a = week_start)
         (planned_rows base hid week_start order env i chores).
Proof.
  apply Forall_lookup. intros k a Ha. unfold planned_rows in Ha.
  rewrite list_lookup_imap in Ha.
  destruct (chores !! k); simplify_eq/=. done.
Qed.

Lemma week_rows_planned (db : DB) (hid : Z) (week_start : string) (order : list Z)
    (env : Env) (i : nat) (chores : list Z) (base : Z) :
  week_rows (with_new_assignments db
               (planned_rows base hid week_start order env i chores))
            hid week_start
  = week_rows db hid week_start ++ planned_rows base hid week_start order env i chores.
Proof.
  unfold week_rows at 1. simpl. rewrite filter_app. f_equal.
  apply filter_all, planned_rows_week.
Qed.

Lemma week_rows_nil_free (db : DB) (hid : Z) (week_start : string) (c : Z) :
  week_rows db hid week_start = [] -> ~ unique_conflict db hid week_start c.
Proof.
  intros Hw (a & Ha & H1 & H2 & _)%Exists_exists.
  eapply (filter_nil_not_elem_of _ _ a); [exact Hw| |exact Ha]. done.
Qed.

(** The database [rotate] leaves when it has to fill the week. *)
Lemma rotate_fills_week (db : DB) (hid : Z) (req : Request) (env : Env) :
  NoDup (c_id <$> chores db) ->
  week_rows db hid (rotate_week req env) = [] ->
  filter (fun c => c_household_id c = hid) (chores db) <> [] ->
  filter (fun m => m_household_id m = hid) (members db) <> [] ->
  let db' :=
    with_new_assignments db
      (planned_rows (rowid_base db) hid (rotate_week req env)
         (pick_member_round_robin db hid (rotate_week req env)) env 0
         (select_chore_ids db hid)) in
  rotate db hid req env = (get_current_assignments db' hid req env, db').
Proof.
  intros Hnd Hw Hc Hm db'. unfold rotate.
  rewrite rotate_on_assign by done.
  rewrite insert_loop_ok; [done| |].
  - by apply select_chore_ids_NoDup.
  - apply Forall_forall. intros c _. by apply week_rows_nil_free.
Qed.

Lemma cyclic_pick_lookup (order : list Z) (i : nat) :
  order <> [] -> order !! (i `mod` length order)%nat = Some (cyclic_pick order i).
Proof.
  intros Ho. unfold cyclic_pick.
  destruct (order !! (i `mod` length order)%nat) eqn:E; [done|].
  apply lookup_ge_None in E.
  assert (length order <> 0%nat) as Hlen by (by destruct order).
  pose proof (Nat.mod_upper_bound i (length order) Hlen). lia.
Qed.

(** C4.  When [rotate] fills a week for a household that has chores and
    members, it takes the chores by ascending id (in every database the
    service gets to that is the order of their creation, and the ids
    are unique) and writes one row per chore: the row at position [i] is
    for the chore at position [i] and goes to
    [order[i mod len(order)]], with status "assigned" and no proof.
    With five chores and fair order [2,3,4,1] the chores 1..5 go to the
    members 2, 3, 4, 1, 2. *)
Theorem rotate_assigns_cyclically :
  (forall (db : DB) (hid : Z) (req : Request) (env : Env),
     NoDup (c_id <$> chores db) ->
     week_rows db hid (rotate_week req env) = [] ->
     filter (fun c => c_household_id c = hid) (chores db) <> [] ->
     filter (fun m => m_household_id m = hid) (members db) <> [] ->
     let week_start := rotate_week req env in
     let chore_ids := select_chore_ids db hid in
     let order := pick_member_round_robin db hid week_start in
     let db' := (rotate db hid req env).2 in
     StronglySorted Z.lt chore_ids
     /\ chore_ids ≡ₚ c_id <$> filter (fun c => c_household_id c = hid) (chores db)
     /\ assignments db' = assignments db ++ week_rows db' hid week_start
     /\ length (week_rows db' hid week_start) = length chore_ids
     /\ forall (i : nat) (c : Z),
          chore_ids !! i = Some c ->
          exists a : Assignment,
            week_rows db' hid week_start !! i = Some a
            /\ a_chore_id a = c
            /\ order !! (i `mod` length order)%nat = Some (a_member_id a)
            /\ a_status a = "assigned"
            /\ a_proof_url a = None)
  /\ (forall (db : DB) (hid : Z),
        reachable db ->
        NoDup (c_id <$> chores db)
        /\ select_chore_ids db hid
           = c_id <$> filter (fun c => c_household_id c = hid) (chores db))
  /\ pick_member_round_robin sample_db 1 "2024-06-10" = [2; 3; 4; 1]
  /\ select_chore_ids sample_db 1 = [1; 2; 3; 4; 5]
  /\ (fun a => (a_chore_id a, a_member_id a))
       <$> week_rows (rotate sample_db 1 (sample_request "2024-06-10") sample_env).2
                     1 "2024-06-10"
     = [(1, 2); (2, 3); (3, 4); (4, 1); (5, 2)].
Proof.
  split; [|split; [|by vm_compute]].
  2: { intros db hid Hr%reachable_chores_in_order.
       split; [by apply sorted_lt_NoDup | by apply select_chore_ids_in_order]. }
  intros db hid req env Hnd Hw Hc Hm week_start chore_ids order db'.
  assert (week_rows db' hid week_start
          = planned_rows (rowid_base db) hid week_start order env 0 chore_ids) as Hrows.
  { unfold db', week_start, order, chore_ids.
    rewrite rotate_fills_week by done. simpl.
    rewrite week_rows_planned. by rewrite Hw. }
  split.
  { apply sorted_strict; [apply select_chore_ids_sorted|].
    by apply select_chore_ids_NoDup. }
  split; [apply select_chore_ids_Permutation|].
  split.
  { rewrite Hrows. unfold db'. by rewrite rotate_fills_week by done. }
  split.
  { rewrite Hrows. apply length_imap. }
  intros i c Hi. rewrite Hrows. unfold planned_rows.
  rewrite list_lookup_imap, Hi. simpl. eexists. split; [done|]. simpl.
  split; [done|]. split; [|done].
  apply cyclic_pick_lookup. unfold order.
  by rewrite pick_member_round_robin_nil.
Qed.

(** The sample household, whose week of 2024-06-10 is still empty: the
    fifth chore goes to the first member of the fair order again. *)
Lemma rotate_assigns_cyclically_witness :
  exists a : Assignment,
    week_rows (rotate sample_db 1 (sample_request "2024-06-10") sample_env).2 1
              (rotate_week (sample_request "2024-06-10") sample_env) !! 4%nat
    = Some a
    /\ a_chore_id a = 5
    /\ pick_member_round_robin sample_db 1
         (rotate_week (sample_request "2024-06-10") sample_env)
       !! (4 `mod` length (pick_member_round_robin sample_db 1
                            (rotate_week (sample_request "2024-06-10") sample_env)))%nat
       = Some (a_member_id a)
    /\ a_status a = "assigned"
    /\ a_proof_url a = None.
Proof.
  apply (proj1 rotate_assigns_cyclically sample_db 1
               (sample_request "2024-06-10") sample_env).
  - apply (bool_decide_unpack _). vm_compute. exact I.
  - reflexivity.
  - vm_compute. discriminate.
  - vm_compute. discriminate.
  - reflexivity.
Defined.

(** ** C2: a rejected insert *)

(** C2, as the code has it.  [rotate] has no handler for a rejected
    insert: when its SELECTs found the week empty and an INSERT of the
    loop is then rejected by the UNIQUE constraint, the
    sqlite3.IntegrityError leaves the handler, the caller gets that
    failure instead of an assignment set, and nothing of the call is
    committed: the database stays as the call met it. *)
Theorem rotate_conflict_is_unhandled :
  forall (seen db : DB) (hid : Z) (req : Request) (env : Env) (e : Exception),
    week_rows seen hid (rotate_week req env) = [] ->
    filter (fun c => c_household_id c = hid) (chores seen) <> [] ->
    filter (fun m => m_household_id m = hid) (members seen) <> [] ->
    insert_loop db hid (rotate_week req env)
      (pick_member_round_robin seen hid (rotate_week req env)) env 0
      (select_chore_ids seen hid) = inl e ->
    e = IntegrityError UNIQUE_FAILED
    /\ rotate_on seen db hid req env = (Unhandled e, db)
    /\ (forall view : WeekView, (rotate_on seen db hid req env).1 <> Json view).
Proof.
  intros seen db hid req env e Hw Hc Hm He.
  rewrite rotate_on_assign by done. rewrite He. simpl.
  split; [|done].
  destruct (insert_loop_cases (select_chore_ids seen hid) db hid (rotate_week req env)
              (pick_member_round_robin seen hid (rotate_week req env)) env 0)
    as [H|H]; congruence.
Qed.

(** Two requests for the week of 2024-06-10 of the sample household:
    the second one read the week as empty before the first one
    committed its five rows. *)
Lemma rotate_conflict_is_unhandled_witness :
  IntegrityError UNIQUE_FAILED = IntegrityError UNIQUE_FAILED
  /\ rotate_on sample_db sample_db_rotated 1 (sample_request "2024-06-10") sample_env
     = (Unhandled (IntegrityError UNIQUE_FAILED), sample_db_rotated)
  /\ (forall view : WeekView,
        (rotate_on sample_db sample_db_rotated 1
                   (sample_request "2024-06-10") sample_env).1 <> Json view).
Proof.
  apply (rotate_conflict_is_unhandled sample_db sample_db_rotated 1
           (sample_request "2024-06-10") sample_env (IntegrityError UNIQUE_FAILED)).
  - reflexivity.
  - vm_compute. discriminate.
  - vm_compute. discriminate.
  - vm_compute. reflexivity.
Defined.

(** The claim as the spec states it fails there: the insert of chore 1
    is rejected, the week's five rows exist, and the caller gets the
    error, not those rows. *)
Lemma rotate_conflict_counterexample :
  unique_conflict sample_db_rotated 1 "2024-06-10" 1
  /\ length (select_week sample_db_rotated 1 "2024-06-10") = 5%nat
  /\ (rotate_on sample_db sample_db_rotated 1
                (sample_request "2024-06-10") sample_env).1
     = Unhandled (IntegrityError UNIQUE_FAILED)
  /\ (rotate_on sample_db sample_db_rotated 1
                (sample_request "2024-06-10") sample_env).1
     <> get_current_assignments sample_db_rotated 1
          (sample_request "2024-06-10") sample_env.
Proof.
  split; [apply (bool_decide_unpack _); vm_compute; exact I|].
  split; [by vm_compute|].
  split; [by vm_compute|].
  vm_compute. discriminate.
Qed.

(** ** C1: a week that is already assigned *)

(** When the week has rows, [rotate] writes nothing, and what it answers
    is the set of the week the query string names. *)
Lemma rotate_replay (db : DB) (hid : Z) (req : Request) (env : Env) :
  week_rows db hid (rotate_week req env) <> [] ->
  rotate db hid req env
  = (Json (mkWeekView (current_week req env)
                      (select_week db hid (current_week req env))), db).
Proof. intros H. unfold rotate. by rewrite rotate_on_replay. Qed.

Lemma week_rows_after_loop (db : DB) (hid : Z) (week_start : string) (order : list Z)
    (env : Env) (chores : list Z) (db' : DB) :
  chores <> [] ->
  insert_loop db hid week_start order env 0 chores = inr db' ->
  week_rows db' hid week_start <> [].
Proof.
  intros Hc Hl.
  destruct (insert_loop_cases chores db hid week_start order env 0) as [H|H];
    [congruence|].
  rewrite H in Hl. injection Hl as <-.
  rewrite week_rows_planned. intros Hnil%(f_equal length).
  rewrite length_app in Hnil. unfold planned_rows in Hnil.
  rewrite length_imap in Hnil. destruct chores; [done|]. simpl in Hnil. lia.
Qed.

(** The same request a second time: the same answer, and the database as
    the first call left it. *)
Lemma rotate_twice (db : DB) (hid : Z) (req : Request) (env : Env) :
  rotate (rotate db hid req env).2 hid req env = rotate db hid req env.
Proof.
  destruct (decide (week_rows db hid (rotate_week req env) = [])) as [Hw|Hw];
    [|rewrite (rotate_replay db) by done; simpl; by apply rotate_replay].
  destruct (decide (filter (fun c => c_household_id c = hid) (chores db) = []))
    as [Hc|Hc].
  { unfold rotate. rewrite (rotate_on_reject db db) by auto. simpl.
    apply rotate_on_reject; auto. }
  destruct (decide (filter (fun m => m_household_id m = hid) (members db) = []))
    as [Hm|Hm].
  { unfold rotate. rewrite (rotate_on_reject db db) by auto. simpl.
    apply rotate_on_reject; auto. }
  unfold rotate at 2 3. rewrite rotate_on_assign by done.
  destruct (insert_loop _ _ _ _ _ _ _) as [e|db'] eqn:Hl; simpl.
  - unfold rotate. rewrite rotate_on_assign by done. by rewrite Hl.
  - unfold rotate. rewrite rotate_on_replay; [done|].
    eapply week_rows_after_loop; [|exact Hl].
    by rewrite select_chore_ids_nil.
Qed.

(** C1, where the code departs from it.  The week of 2024-06-03 of the
    sample household has a row.  A rotate request that names this week
    in its JSON body, sent on 2024-06-10 without a query string, leaves
    the database as it is but answers with the week of 2024-06-10 and no
    assignment: [get_current_assignments] reads the week from the query
    string, not from the body [rotate] read. *)
Theorem rotate_replay_answers_query_week :
  length (week_rows sample_db 1 "2024-06-03") = 1%nat
  /\ length (select_week sample_db 1 "2024-06-03") = 1%nat
  /\ rotate sample_db 1 (mkRequest (Some "2024-06-03") None) sample_env
     = (Json (mkWeekView "2024-06-10" []), sample_db).
Proof. by vm_compute. Qed.

(** ** C7: completing an assignment *)

Lemma filter_id_nil (aid : Z) (rows : list Assignment) :
  filter (fun a => a_id a = aid) rows = [] <-> Forall (fun a => a_id a <> aid) rows.
Proof.
  split.
  - intros H. apply Forall_forall. intros a Ha Heq.
    by apply (filter_nil_not_elem_of _ _ a H).
  - induction 1 as [|a l Ha Hl IH]; [done|]. by rewrite filter_cons_False.
Qed.

Lemma complete_assignment_overflow (db : DB) (aid : Z) (req : CompleteRequest) :
  fits_int64 aid = false ->
  complete_assignment db aid req = (Unhandled (OverflowError INT_TOO_LARGE), db).
Proof. intros H. unfold complete_assignment. by rewrite H. Qed.

(** C7.  [complete_assignment] on an id that fits SQLite's 64-bit
    INTEGER.  On an id some row has: the answer is the id with status
    "done" and the proof reference of the request, and in the table
    exactly the rows with that id have status "done" and that proof
    reference (NULL when the request gives none), every other field and
    row being as before.  On an id no row has: 404 "not found" and the
    database as it was.  On an id that does not fit (from the route: 2^63
    and above, which no row has either) the binding of the id raises
    [OverflowError], no handler catches it, and the database is as it
    was.  The proof
    reference of the request is the form's when the request has form
    fields, else the JSON body's. *)
Theorem complete_assignment_done_or_not_found :
  (forall (db : DB) (aid : Z) (req : CompleteRequest) (a : Assignment),
     fits_int64 aid = true ->
     a ∈ assignments db -> a_id a = aid ->
     let proof_url := request_proof_url req in
     let db' := (complete_assignment db aid req).2 in
     (complete_assignment db aid req).1 = Json (mkCompleteView aid "done" proof_url)
     /\ (households db', members db', chores db') = (households db, members db, chores db)
     /\ length (assignments db') = length (assignments db)
     /\ (forall (i : nat) (b : Assignment),
           assignments db !! i = Some b ->
           assignments db' !! i
           = Some (if bool_decide (a_id b = aid)
                   then mkAssignment (a_id b) (a_household_id b) (a_week_start b)
                          (a_chore_id b) (a_member_id b) "done" proof_url
                          (a_created_at b)
                   else b)))
  /\ (forall (db : DB) (aid : Z) (req : CompleteRequest),
        fits_int64 aid = true ->
        (forall a, a ∈ assignments db -> a_id a <> aid) ->
        complete_assignment db aid req = (JsonError 404 "not found", db))
  /\ (forall (db : DB) (aid : Z) (req : CompleteRequest),
        fits_int64 aid = false ->
        complete_assignment db aid req = (Unhandled (OverflowError INT_TOO_LARGE), db))
  /\ (forall (fields : gmap string string) (body : option (gmap string string)),
        fields <> ∅ ->
        request_proof_url (mkCompleteRequest fields body) = fields !! "proof_url")
  /\ (forall body : gmap string string,
        request_proof_url (mkCompleteRequest ∅ (Some body)) = body !! "proof_url")
  /\ request_proof_url (mkCompleteRequest ∅ None) = None.
Proof.
  split.
  { intros db aid req a Hfit Ha Hid proof_url db'.
    assert (complete_assignment db aid req
            = (Json (mkCompleteView aid "done" proof_url),
               mkDB (households db) (members db) (chores db)
                    (update_done proof_url aid (assignments db))
                    (seq_households db) (seq_members db) (seq_chores db)
                    (seq_assignments db))) as Heq.
    { unfold complete_assignment. rewrite Hfit. cbn [negb].
      destruct (filter (fun a => a_id a = aid) (assignments db)) eqn:Hf; [|done].
      apply filter_id_nil in Hf.
      by destruct (proj1 (Forall_forall _ _) Hf a Ha). }
    unfold db'. rewrite Heq. simpl.
    split; [done|]. split; [done|].
    unfold update_done. split; [by rewrite length_fmap|].
    intros i b Hb. rewrite list_lookup_fmap, Hb. simpl. by case_bool_decide. }
  split.
  { intros db aid req Hfit Hnone. unfold complete_assignment.
    rewrite Hfit. cbn [negb].
    assert (filter (fun a => a_id a = aid) (assignments db) = []) as ->; [|done].
    apply filter_id_nil, Forall_forall, Hnone. }
  split.
  { intros db aid req Hbig. by apply complete_assignment_overflow. }
  split.
  { intros fields body Hf. unfold request_proof_url. simpl.
    by rewrite bool_decide_eq_false_2. }
  split; [|done].
  intros body. unfold request_proof_url. simpl.
  by rewrite bool_decide_eq_true_2.
Qed.

(** Row 3 of the rotated sample household, completed with a proof link;
    an id no row has; and the first id that does not fit. *)
Lemma complete_assignment_done_or_not_found_witness :
  (complete_assignment sample_db_rotated 3
     (mkCompleteRequest ∅ (Some {["proof_url" := "http://x/p.png"]}))).1
  = Json (mkCompleteView 3 "done" (Some "http://x/p.png"))
  /\ complete_assignment sample_db_rotated 77 (mkCompleteRequest ∅ None)
     = (JsonError 404 "not found", sample_db_rotated)
  /\ complete_assignment sample_db_rotated 9223372036854775808
       (mkCompleteRequest ∅ (Some {["proof_url" := "http://x/p.png"]}))
     = (Unhandled (OverflowError INT_TOO_LARGE), sample_db_rotated).
Proof.
  split; [|split].
  - destruct (proj1 complete_assignment_done_or_not_found sample_db_rotated 3
                (mkCompleteRequest ∅ (Some {["proof_url" := "http://x/p.png"]}))
                (mkAssignment 3 1 "2024-06-10" 2 3 "assigned" None "t"))
      as (H & _).
    + reflexivity.
    + vm_compute. set_solver.
    + reflexivity.
    + rewrite H. reflexivity.
  - apply (proj1 (proj2 complete_assignment_done_or_not_found)); [reflexivity|].
    intros a Ha. vm_compute in Ha.
    set_unfold in Ha. intros Hid.
    destruct Ha as [->|[->|[->|[->|[->|[->|?]]]]]]; try discriminate Hid. done.
  - apply (proj1 (proj2 (proj2 complete_assignment_done_or_not_found))). reflexivity.
Defined.

(** The claim as the spec states it fails on the id 2^63, which the
    route takes: no assignment has it, and the caller gets the
    [OverflowError], not the 404. *)
Lemma complete_assignment_counterexample :
  filter (fun a => a_id a = 9223372036854775808) (assignments sample_db_rotated) = []
  /\ (complete_assignment sample_db_rotated 9223372036854775808
        (mkCompleteRequest ∅ (Some {["proof_url" := "http://x/p.png"]}))).1
     = Unhandled (OverflowError INT_TOO_LARGE)
  /\ (complete_assignment sample_db_rotated 9223372036854775808
        (mkCompleteRequest ∅ (Some {["proof_url" := "http://x/p.png"]}))).1
     <> JsonError 404 "not found".
Proof.
  split; [by vm_compute|]. split; [by vm_compute|]. vm_compute. discriminate.
Qed.

(** ** C8: join orders *)

Lemma sql_max_seqZ (n : nat) : default 0 (sql_max (seqZ 1 (Z.of_nat n))) = Z.of_nat n.
Proof.
  destruct n as [|n]; [done|].
  rewrite seqZ_S, sql_max_snoc; [simpl; lia|].
  apply Forall_forall. intros y Hy.
  apply list_elem_of_lookup in Hy as [i Hi].
  apply lookup_seqZ in Hi. lia.
Qed.

Lemma seqZ_sorted (n : nat) : StronglySorted Z.lt (seqZ 1 (Z.of_nat n)).
Proof.
  induction n as [|n IH]; [constructor|].
  rewrite seqZ_S. apply StronglySorted_app_2; [|done|repeat constructor].
  intros x y [i Hi]%list_elem_of_lookup ->%list_elem_of_singleton.
  apply lookup_seqZ in Hi. lia.
Qed.

Lemma add_member_ok (db : DB) (hid : Z) (name email : option string) (env : Env) :
  falsy name = false ->
  add_member db hid name email env
  = (Json (mkMemberView (next_rowid (m_id <$> members db) (seq_members db))
                        (default "" name) email (next_join_order db hid)),
     mkDB (households db)
          (members db ++
             [mkMember (next_rowid (m_id <$> members db) (seq_members db)) hid
                       (default "" name) email (next_join_order db hid)
                       (now_iso env 0)])
          (chores db) (assignments db)
          (seq_households db)
          (next_rowid (m_id <$> members db) (seq_members db))
          (seq_chores db) (seq_assignments db)).
Proof. intros H. unfold add_member, add_member_on. by rewrite H. Qed.

Lemma add_member_in_order (db : DB) (hid : Z) (name email : option string) (env : Env) :
  members_in_order db -> members_in_order (add_member db hid name email env).2.
Proof.
  intros [Hids Hjo]. destruct (falsy name) eqn:Hn.
  { unfold add_member, add_member_on. by rewrite Hn. }
  rewrite add_member_ok by done. split; simpl.
  - rewrite fmap_app. apply StronglySorted_app_2; [|done|repeat constructor].
    intros x y Hx ->%list_elem_of_singleton.
    by apply (proj1 (Forall_forall _ _) (next_rowid_fresh _ (seq_members db))).
  - intros hid'. unfold join_orders. simpl. rewrite filter_app.
    destruct (decide (hid = hid')) as [<-|Hne].
    + rewrite filter_cons_True by done. rewrite filter_nil, fmap_app, length_app.
      simpl. rewrite Nat.add_1_r, seqZ_S.
      fold (join_orders db hid). rewrite <- (Hjo hid). f_equal.
      unfold next_join_order. fold (join_orders db hid).
      rewrite (Hjo hid) at 1. rewrite sql_max_seqZ. f_equal. lia.
    + rewrite filter_cons_False by done. rewrite filter_nil, app_nil_r.
      apply Hjo.
Qed.

Lemma rotate_members (db : DB) (hid : Z) (req : Request) (env : Env) :
  members (rotate db hid req env).2 = members db.
Proof.
  unfold rotate, rotate_on.
  repeat (match goal with |- context [if ?b then _ else _] => destruct b end;
          simpl; try done).
  destruct (insert_loop_cases (select_chore_ids db hid) db hid (rotate_week req env)
              (pick_member_round_robin db hid (rotate_week req env)) env 0)
    as [-> | ->]; done.
Qed.

Lemma handle_in_order (db : DB) (c : Call) (env : Env) :
  members_in_order db -> members_in_order (handle db c env).
Proof.
  intros H. destruct c as [name|hid name email|hid title cadence|hid req|aid req];
    simpl.
  - unfold create_household. by destruct (falsy name).
  - by apply add_member_in_order.
  - unfold add_chore. by destruct (falsy title), (get_or cadence "weekly").
  - unfold members_in_order, join_orders. by rewrite rotate_members.
  - unfold complete_assignment. destruct (fits_int64 aid); [|done].
    by destruct (_ =? 0).
Qed.

Lemma reachable_in_order (db : DB) : reachable db -> members_in_order db.
Proof.
  induction 1 as [|db c env _ IH]; [|by apply handle_in_order].
  split; [constructor|done].
Qed.

Lemma sample_db_reachable : reachable sample_db.
Proof.
  unfold sample_db.
  apply (reachable_step _ (AddChore 1 (Some "C5") Missing) sample_env).
  apply (reachable_step _ (AddChore 1 (Some "C4") Missing) sample_env).
  apply (reachable_step _ (AddChore 1 (Some "C3") Missing) sample_env).
  apply (reachable_step _ (AddChore 1 (Some "C2") Missing) sample_env).
  apply (reachable_step _ (AddMember 1 (Some "M4") None) sample_env).
  apply (reachable_step _ (AddMember 1 (Some "M3") None) sample_env).
  apply (reachable_step _ (AddMember 1 (Some "M2") None) sample_env).
  apply (reachable_step _ (Rotate 1 (mkRequest (Some "2024-06-03") None)) sample_env).
  apply (reachable_step _ (AddChore 1 (Some "C1") Missing) sample_env).
  apply (reachable_step _ (AddMember 1 (Some "M1") None) sample_env).
  apply (reachable_step _ (CreateHousehold (Some "H")) sample_env).
  apply reachable_init.
Qed.

Lemma add_member_on_ok (seen db : DB) (hid : Z) (name email : option string)
    (env : Env) :
  falsy name = false ->
  add_member_on seen db hid name email env
  = (Json (mkMemberView (next_rowid (m_id <$> members db) (seq_members db))
                        (default "" name) email (next_join_order seen hid)),
     mkDB (households db)
          (members db ++
             [mkMember (next_rowid (m_id <$> members db) (seq_members db)) hid
                       (default "" name) email (next_join_order seen hid)
                       (now_iso env 0)])
          (chores db) (assignments db)
          (seq_households db)
          (next_rowid (m_id <$> members db) (seq_members db))
          (seq_chores db) (seq_assignments db)).
Proof. intros H. unfold add_member_on. by rewrite H. Qed.

(** C8.  [add_member] gives the new member the largest join order of
    the household plus one, and 1 in a household without members; the
    new join order is larger than every one the household has.  In
    every database the service gets to, one request after the other,
    the join orders of a household are 1, 2, 3, ... in the order its
    members were created: strictly increasing and without repetition.
    When another request commits between the SELECT and the INSERT of
    [add_member], the new join order is the largest one the SELECT read
    plus one (1 when it read none), whatever the table holds by then. *)
Theorem add_member_join_order :
  (forall (db : DB) (hid : Z) (name email : option string) (env : Env),
     falsy name = false ->
     exists m : Member,
       members (add_member db hid name email env).2 = members db ++ [m]
       /\ (add_member db hid name email env).1
          = Json (mkMemberView (m_id m) (m_name m) (m_email m) (m_join_order m))
       /\ m_household_id m = hid
       /\ m_join_order m = default 0 (sql_max (join_orders db hid)) + 1
       /\ (join_orders db hid = [] -> m_join_order m = 1)
       /\ Forall (fun j => j < m_join_order m) (join_orders db hid)
       /\ Forall (fun i => i < m_id m) (m_id <$> members db))
  /\ (forall db : DB,
        reachable db ->
        StronglySorted Z.lt (m_id <$> members db)
        /\ forall hid : Z,
             join_orders db hid = seqZ 1 (Z.of_nat (length (join_orders db hid)))
             /\ StronglySorted Z.lt (join_orders db hid)
             /\ NoDup (join_orders db hid))
  /\ (forall (seen db : DB) (hid : Z) (name email : option string) (env : Env),
        falsy name = false ->
        exists m : Member,
          members (add_member_on seen db hid name email env).2 = members db ++ [m]
          /\ (add_member_on seen db hid name email env).1
             = Json (mkMemberView (m_id m) (m_name m) (m_email m) (m_join_order m))
          /\ m_household_id m = hid
          /\ m_join_order m = default 0 (sql_max (join_orders seen hid)) + 1
          /\ (join_orders seen hid = [] -> m_join_order m = 1)
          /\ Forall (fun j => j < m_join_order m) (join_orders seen hid)
          /\ Forall (fun i => i < m_id m) (m_id <$> members db)).
Proof.
  assert (forall (seen db : DB) (hid : Z) (name email : option string) (env : Env),
            falsy name = false ->
            exists m : Member,
              members (add_member_on seen db hid name email env).2 = members db ++ [m]
              /\ (add_member_on seen db hid name email env).1
                 = Json (mkMemberView (m_id m) (m_name m) (m_email m) (m_join_order m))
              /\ m_household_id m = hid
              /\ m_join_order m = default 0 (sql_max (join_orders seen hid)) + 1
              /\ (join_orders seen hid = [] -> m_join_order m = 1)
              /\ Forall (fun j => j < m_join_order m) (join_orders seen hid)
              /\ Forall (fun i => i < m_id m) (m_id <$> members db)) as Hon.
  { intros seen db hid name email env Hn. rewrite add_member_on_ok by done. simpl.
    eexists. split; [done|]. simpl. split; [done|]. split; [done|].
    split; [done|].
    split; [intros H; unfold next_join_order; fold (join_orders seen hid); by rewrite H|].
    split; [|apply next_rowid_fresh].
    apply Forall_forall. intros j Hj%sql_max_upper.
    unfold next_join_order. fold (join_orders seen hid). lia. }
  split; [|split; [|exact Hon]].
  - intros db hid name email env. apply (Hon db db).
  - intros db [Hids Hjo]%reachable_in_order. split; [done|].
    intros hid. split; [done|]. rewrite (Hjo hid).
    split; [apply seqZ_sorted | apply NoDup_seqZ].
Qed.

(** A fifth member for the sample household gets join order 5; the
    sample household's join orders are 1 to 4; and a sixth member whose
    request read the table before the fifth was written gets 5 too. *)
Lemma add_member_join_order_witness :
  (exists m : Member,
     members (add_member sample_db 1 (Some "M5") None sample_env).2
     = members sample_db ++ [m]
     /\ m_join_order m = 5)
  /\ join_orders sample_db 1 = [1; 2; 3; 4]
  /\ (exists m : Member,
        members (add_member_on sample_db sample_db_joined 1 (Some "M6") None
                   sample_env).2
        = members sample_db_joined ++ [m]
        /\ m_join_order m = 5).
Proof.
  split; [|split].
  - destruct (proj1 add_member_join_order sample_db 1 (Some "M5") None sample_env
                eq_refl) as (m & Hm & _ & _ & Hjo & _).
    exists m. split; [exact Hm|]. rewrite Hjo. reflexivity.
  - destruct (proj1 (proj2 add_member_join_order) sample_db sample_db_reachable)
      as (_ & H). destruct (H 1) as (-> & _). reflexivity.
  - destruct (proj2 (proj2 add_member_join_order) sample_db sample_db_joined 1
                (Some "M6") None sample_env eq_refl) as (m & Hm & _ & _ & Hjo & _).
    exists m. split; [exact Hm|]. rewrite Hjo. reflexivity.
Defined.

(** The claim as the spec states it fails when two requests overlap.
    Both read the sample household's largest join order, 4, before
    either writes.  When the second one writes, the largest join order
    in the table is 5, and the new member gets 5, not 6: the join orders
    of the household are no longer strictly increasing, and 5 is used
    twice. *)
Lemma add_member_counterexample :
  join_orders sample_db_joined 1 = [1; 2; 3; 4; 5]
  /\ (add_member_on sample_db sample_db_joined 1 (Some "M6") None sample_env).1
     = Json (mkMemberView 6 "M6" None 5)
  /\ default 0 (sql_max (join_orders sample_db_joined 1)) + 1 = 6
  /\ join_orders
       (add_member_on sample_db sample_db_joined 1 (Some "M6") None sample_env).2 1
     = [1; 2; 3; 4; 5; 5]
  /\ ~ NoDup (join_orders
                (add_member_on sample_db sample_db_joined 1 (Some "M6") None
                   sample_env).2 1).
Proof.
  split; [by vm_compute|]. split; [by vm_compute|]. split; [by vm_compute|].
  split; [by vm_compute|].
  intros H%(bool_decide_pack _). by vm_compute in H.
Qed.

(** ** C9: the week of a request that names none *)

Example iso_date_2024_06_03 :
  iso_date <$> date_of 739040 = Some "2024-06-03"
  /\ weekday <$> date_of 739040 = Some 0
  /\ iso_date <$> (monday_of_week <$> date_of 739045) = Some "2024-06-03".
Proof. repeat split; vm_compute; reflexivity. Qed.

Lemma mkdate_ext (o : Z) (H1 H2 : in_date_range o = true) : mkdate o H1 = mkdate o H2.
Proof. f_equal. apply UIP_dec, Bool.bool_dec. Qed.

Lemma date_sub_days_some (d : date) (n : Z) (H : in_date_range (toordinal d - n) = true) :
  date_sub_days d n = Some (mkdate (toordinal d - n) H).
Proof.
  unfold date_sub_days.
  generalize (eq_refl (in_date_range (toordinal d - n))).
  generalize (in_date_range (toordinal d - n)) at 2 3.
  intros b Hb. destruct b; [|congruence].
  f_equal. apply mkdate_ext.
Qed.

Lemma string_length_app (s1 s2 : string) :
  String.length (s1 +:+ s2) = (String.length s1 + String.length s2)%nat.
Proof. induction s1 as [|c s1 IH]; simpl; [done|]. by rewrite IH. Qed.

Lemma digits_length (w : nat) : forall n, String.length (digits w n) = w.
Proof.
  induction w as [|w IH]; intros n; [done|]. simpl.
  rewrite string_length_app, IH. simpl. lia.
Qed.

Lemma all_digits_app (s1 s2 : string) :
  all_digits s1 -> all_digits s2 -> all_digits (s1 +:+ s2).
Proof. induction s1 as [|c s1 IH]; simpl; [done|]. intros [??] ?. auto. Qed.

Lemma digit_is_digit (n : Z) : is_digit (digit (n mod 10)).
Proof.
  unfold is_digit, digit.
  pose proof (Z.mod_pos_bound n 10 ltac:(lia)).
  rewrite Ascii.N_ascii_embedding; lia.
Qed.

Lemma digits_all_digits (w : nat) : forall n, all_digits (digits w n).
Proof.
  induction w as [|w IH]; intros n; [done|]. simpl.
  apply all_digits_app; [apply IH|]. split; [apply digit_is_digit|done].
Qed.

Lemma zero_padded_digits (w : nat) (n : Z) : n < 10 ^ Z.of_nat w -> zero_padded w n = digits w n.
Proof. intros H. unfold zero_padded. by rewrite (proj2 (Z.ltb_lt _ _) H). Qed.

Lemma ord2ymd_bounds (o : Z) :
  0 < o <= MAXORDINAL ->
  1 <= (ord2ymd o).1.1 <= 9999
  /\ 1 <= (ord2ymd o).1.2 <= 12
  /\ 1 <= (ord2ymd o).2 <= 31.
Proof.
  unfold MAXORDINAL. intros Ho. unfold ord2ymd.
  pose proof (Z.div_mod (o - 1) 146097 ltac:(lia)) as E400.
  pose proof (Z.mod_pos_bound (o - 1) 146097 ltac:(lia)) as B400.
  set (n400 := (o - 1) / 146097) in *. set (r400 := (o - 1) mod 146097) in *.
  pose proof (Z.div_mod r400 36524 ltac:(lia)) as E100.
  pose proof (Z.mod_pos_bound r400 36524 ltac:(lia)) as B100.
  set (n100 := r400 / 36524) in *. set (r100 := r400 mod 36524) in *.
  pose proof (Z.div_mod r100 1461 ltac:(lia)) as E4.
  pose proof (Z.mod_pos_bound r100 1461 ltac:(lia)) as B4.
  set (n4 := r100 / 1461) in *. set (r4 := r100 mod 1461) in *.
  pose proof (Z.div_mod r4 365 ltac:(lia)) as E1.
  pose proof (Z.mod_pos_bound r4 365 ltac:(lia)) as B1.
  set (n1 := r4 / 365) in *. set (n := r4 mod 365) in *.
  clearbody n400 r400 n100 r100 n4 r4 n1 n.
  assert (0 <= n400 /\ 0 <= n100 /\ 0 <= n4 /\ 0 <= n1) as (P400 & P100 & P4 & P1) by lia.
  destruct (Z.eqb_spec n1 4) as [H1|H1]; [simpl; lia|].
  destruct (Z.eqb_spec n100 4) as [H100|H100]; [simpl; lia|].
  cbn [orb].
  generalize ((n1 =? 3) && (negb (n4 =? 24) || (n100 =? 3))). intros leap.
  rewrite Z.shiftr_div_pow2 by lia. change (2 ^ 5) with 32.
  pose proof (Z.div_mod (n + 50) 32 ltac:(lia)) as Em.
  pose proof (Z.mod_pos_bound (n + 50) 32 ltac:(lia)) as Bm.
  set (month := (n + 50) / 32) in *. set (rm := (n + 50) mod 32) in *.
  clearbody month rm.
  assert (year_ok : 1 <= n400 * 400 + 1 + n100 * 100 + n4 * 4 + n1 <= 9999) by lia.
  assert (month = 1 \/ month = 2 \/ month = 3 \/ month = 4 \/ month = 5 \/ month = 6
          \/ month = 7 \/ month = 8 \/ month = 9 \/ month = 10 \/ month = 11
          \/ month = 12) as Hmonth by lia.
  clear E400 B400 E100 B100 E4 B4 E1 P400 P100 P4 P1 H1 H100 Ho.
  destruct Hmonth as [->|[->|[->|[->|[->|[->|[->|[->|[->|[->|[->| ->]]]]]]]]]]];
    destruct leap;
    repeat match goal with
           | |- context [nth ?i ?l ?d] =>
             let v := eval vm_compute in (nth i l d) in change (nth i l d) with v
           end;
    repeat match goal with
           | |- context [?a <? ?b] => destruct (Z.ltb_spec a b); cbn [andb] in *; try lia
           | |- context [?a =? ?b] => destruct (Z.eqb_spec a b); cbn [andb] in *; try lia
           end;
    cbn [andb fst snd] in *; lia.
Qed.

Lemma iso_date_shape (d : date) :
  exists year month day : Z,
    ord2ymd (toordinal d) = (year, month, day)
    /\ 1 <= year <= 9999 /\ 1 <= month <= 12 /\ 1 <= day <= 31
    /\ iso_date d = digits 4 year +:+ "-" +:+ digits 2 month +:+ "-" +:+ digits 2 day.
Proof.
  destruct d as [o Ho]. simpl.
  assert (0 < o <= MAXORDINAL) as Hr.
  { unfold in_date_range in Ho. apply andb_true_iff in Ho as [H1 H2].
    apply Z.ltb_lt in H1. apply Z.leb_le in H2. done. }
  pose proof (ord2ymd_bounds o Hr) as (Hy & Hm & Hd).
  unfold iso_date. simpl. destruct (ord2ymd o) as [[year month] day].
  simpl in Hy, Hm, Hd. exists year, month, day.
  repeat (split; [done|]).
  rewrite !zero_padded_digits; [done| |  |]; simpl; lia.
Qed.

Lemma weekday_monday_of_week (d : date) : weekday (monday_of_week d) = 0.
Proof.
  unfold weekday, monday_of_week. simpl. fold (weekday d). unfold weekday.
  pose proof (Z.div_mod (toordinal d + 6) 7 ltac:(lia)) as Hd.
  replace (toordinal d - (toordinal d + 6) mod 7 + 6)
    with ((toordinal d + 6) / 7 * 7) by lia.
  apply Z.mod_mul. lia.
Qed.

Lemma rotate_on_reply_week (seen db : DB) (hid : Z) (req : Request) (env : Env)
    (view : WeekView) :
  (rotate_on seen db hid req env).1 = Json view ->
  wv_week_start view = current_week req env.
Proof.
  unfold rotate_on.
  repeat (match goal with |- context [if ?b then _ else _] => destruct b end;
          simpl; try done);
    try (destruct (insert_loop _ _ _ _ _ _ _); simpl; try done);
    unfold get_current_assignments; by intros [= <-].
Qed.

(** C9.  A rotate request without a week in its body, and a
    current-assignments request without a week in its query string, use
    [iso_date(monday_of_week())]: the date of the Monday on or before
    the server's [date.today()], less than seven days back, reached
    without overflow, and written as four digits, a dash, two digits, a
    dash, two digits (year, month, day).  A rotate request that names
    no week at all answers for that week too.  On Saturday 2024-06-08 it
    is "2024-06-03". *)
Theorem default_week_is_this_monday :
  (forall (env : Env) (other : option string),
     let monday := monday_of_week (today env) in
     rotate_week (mkRequest None other) env = iso_date monday
     /\ current_week (mkRequest other None) env = iso_date monday
     /\ weekday monday = 0
     /\ toordinal monday <= toordinal (today env) < toordinal monday + 7
     /\ date_sub_days (today env) (weekday (today env)) = Some monday
     /\ String.length (iso_date monday) = 10%nat
     /\ (exists year month day : Z,
           ord2ymd (toordinal monday) = (year, month, day)
           /\ 1 <= year <= 9999 /\ 1 <= month <= 12 /\ 1 <= day <= 31
           /\ iso_date monday
              = digits 4 year +:+ "-" +:+ digits 2 month +:+ "-" +:+ digits 2 day
           /\ all_digits (digits 4 year)
           /\ all_digits (digits 2 month)
           /\ all_digits (digits 2 day))
     /\ (forall (db : DB) (hid : Z) (view : WeekView),
           (rotate db hid (mkRequest None None) env).1 = Json view
           \/ get_current_assignments db hid (mkRequest other None) env = Json view ->
           wv_week_start view = iso_date monday))
  /\ rotate_week (mkRequest None None) sample_saturday = "2024-06-03"
  /\ current_week (mkRequest None None) sample_saturday = "2024-06-03".
Proof.
  split; [|by vm_compute].
  intros env other monday.
  split; [done|]. split; [done|].
  split; [apply weekday_monday_of_week|].
  split.
  { unfold monday, monday_of_week, weekday. simpl.
    pose proof (Z.mod_pos_bound (toordinal (today env) + 6) 7 ltac:(lia)). lia. }
  split; [apply date_sub_days_some|].
  destruct (iso_date_shape monday) as (year & month & day & Hymd & Hy & Hm & Hd & Hiso).
  split.
  { rewrite Hiso. rewrite !string_length_app, !digits_length. done. }
  split.
  { exists year, month, day. repeat (split; [done|]).
    split; [apply digits_all_digits|]. split; apply digits_all_digits. }
  intros db hid view [H|H].
  - by apply rotate_on_reply_week in H.
  - unfold get_current_assignments in H. by injection H as <-.
Qed.

(** The sample household on Monday 2024-06-10, asked to rotate without
    naming a week. *)
Lemma default_week_is_this_monday_witness :
  exists view : WeekView,
    (rotate sample_db 1 (mkRequest None None) sample_env).1 = Json view
    /\ length (wv_assignments view) = 5%nat
    /\ wv_week_start view = iso_date (monday_of_week (today sample_env)).
Proof.
  eexists. split; [vm_compute; reflexivity|]. split; [reflexivity|].
  destruct (proj1 default_week_is_this_monday sample_env None)
    as (_ & _ & _ & _ & _ & _ & _ & H).
  apply (H sample_db 1). left. vm_compute. reflexivity.
Defined.

(** ** Dates as text *)

Lemma string_compare_app (a1 : string) : forall (a2 r1 r2 : string),
  String.length a1 = String.length a2 ->
  String.compare (a1 +:+ r1) (a2 +:+ r2)
  = then_compare (String.compare a1 a2) (String.compare r1 r2).
Proof.
  induction a1 as [|c1 a1 IH]; intros [|c2 a2] r1 r2 Hlen; try done.
  simpl in *. destruct (Ascii.compare c1 c2); [|done|done].
  apply IH. congruence.
Qed.

Lemma digit_compare (a b : Z) :
  0 <= a < 10 -> 0 <= b < 10 -> Ascii.compare (digit a) (digit b) = Z.compare a b.
Proof.
  intros Ha Hb. unfold Ascii.compare, digit.
  rewrite !Ascii.N_ascii_embedding by lia.
  rewrite <- N2Z.inj_compare, !N2Z.inj_add, !Z2N.id by lia.
  apply Z.add_compare_mono_l.
Qed.

Lemma compare_div_mod (a b : Z) :
  Z.compare a b
  = then_compare (Z.compare (a / 10) (b / 10)) (Z.compare (a mod 10) (b mod 10)).
Proof.
  pose proof (Z.div_mod a 10 ltac:(lia)). pose proof (Z.div_mod b 10 ltac:(lia)).
  pose proof (Z.mod_pos_bound a 10 ltac:(lia)).
  pose proof (Z.mod_pos_bound b 10 ltac:(lia)).
  destruct (Z.compare_spec (a / 10) (b / 10)); simpl.
  - destruct (Z.compare_spec (a mod 10) (b mod 10));
      [apply Z.compare_eq_iff | apply Z.compare_lt_iff | apply Z.compare_gt_iff]; lia.
  - apply Z.compare_lt_iff. lia.
  - apply Z.compare_gt_iff. lia.
Qed.

Lemma digits_compare (w : nat) : forall a b : Z,
  0 <= a < 10 ^ Z.of_nat w -> 0 <= b < 10 ^ Z.of_nat w ->
  String.compare (digits w a) (digits w b) = Z.compare a b.
Proof.
  induction w as [|w IH]; intros a b Ha Hb.
  - simpl in *. symmetry. apply Z.compare_eq_iff. lia.
  - rewrite Nat2Z.inj_succ, Z.pow_succ_r in Ha, Hb by lia.
    simpl. rewrite string_compare_app by (by rewrite !digits_length).
    pose proof (Z.mod_pos_bound a 10 ltac:(lia)).
    pose proof (Z.mod_pos_bound b 10 ltac:(lia)).
    rewrite IH.
    + simpl. rewrite digit_compare by done.
      rewrite (compare_div_mod a b).
      by destruct (a mod 10 ?= b mod 10).
    + split; [apply Z.div_pos; lia | apply Z.div_lt_upper_bound; lia].
    + split; [apply Z.div_pos; lia | apply Z.div_lt_upper_bound; lia].
Qed.

Lemma dash_compare (r1 r2 : string) :
  String.compare ("-" +:+ r1) ("-" +:+ r2) = String.compare r1 r2.
Proof. reflexivity. Qed.

Lemma iso_date_compare (d1 d2 : date) :
  String.compare (iso_date d1) (iso_date d2)
  = ymd_compare (ord2ymd (toordinal d1)) (ord2ymd (toordinal d2)).
Proof.
  destruct (iso_date_shape d1) as (y1 & m1 & dd1 & E1 & Hy1 & Hm1 & Hd1 & ->).
  destruct (iso_date_shape d2) as (y2 & m2 & dd2 & E2 & Hy2 & Hm2 & Hd2 & ->).
  rewrite E1, E2. unfold ymd_compare. cbn [fst snd].
  rewrite string_compare_app by (by rewrite !digits_length).
  rewrite digits_compare by (simpl; lia). f_equal.
  rewrite dash_compare.
  rewrite string_compare_app by (by rewrite !digits_length).
  rewrite digits_compare by (simpl; lia). f_equal.
  rewrite dash_compare.
  apply digits_compare; simpl; lia.
Qed.

Ltac table :=
  repeat match goal with
         | |- context [nth ?i ?l ?d] =>
           let v := eval vm_compute in (nth i l d) in change (nth i l d) with v
         | H : context [nth ?i ?l ?d] |- _ =>
           let v := eval vm_compute in (nth i l d) in change (nth i l d) with v in H
         end.

Lemma ymd2ord_ord2ymd (o : Z) :
  0 < o <= MAXORDINAL -> valid_ymd (ord2ymd o) /\ ymd2ord (ord2ymd o) = o.
Proof.
  unfold MAXORDINAL. intros Ho. unfold ord2ymd.
  pose proof (Z.div_mod (o - 1) 146097 ltac:(lia)) as E400.
  pose proof (Z.mod_pos_bound (o - 1) 146097 ltac:(lia)) as B400.
  set (n400 := (o - 1) / 146097) in *. set (r400 := (o - 1) mod 146097) in *.
  pose proof (Z.div_mod r400 36524 ltac:(lia)) as E100.
  pose proof (Z.mod_pos_bound r400 36524 ltac:(lia)) as B100.
  set (n100 := r400 / 36524) in *. set (r100 := r400 mod 36524) in *.
  pose proof (Z.div_mod r100 1461 ltac:(lia)) as E4.
  pose proof (Z.mod_pos_bound r100 1461 ltac:(lia)) as B4.
  set (n4 := r100 / 1461) in *. set (r4 := r100 mod 1461) in *.
  pose proof (Z.div_mod r4 365 ltac:(lia)) as E1.
  pose proof (Z.mod_pos_bound r4 365 ltac:(lia)) as B1.
  set (n1 := r4 / 365) in *. set (n := r4 mod 365) in *.
  clearbody n400 r400 n100 r100 n4 r4 n1 n.
  assert (0 <= n400 /\ 0 <= n100 <= 4 /\ 0 <= n4 <= 24  /\ 0 <= n1 <= 4)
    as (P400 & P100 & P4 & P1) by lia.
  set (year := n400 * 400 + 1 + n100 * 100 + n4 * 4 + n1).
  destruct (Z.eqb_spec n1 4) as [H1|H1]; cbn [orb].
  { unfold valid_ymd, days_in_month, ymd2ord, days_before_month, days_before_year,
      is_leap. table.
    assert ((year - 1) mod 4 = 0) as -> by (unfold year; Z.div_mod_to_equations; lia).
    assert (((year - 1) mod 100 =? 0) = false) as ->.
    { apply Z.eqb_neq. unfold year. Z.div_mod_to_equations. lia. }
    cbn. split; [lia|]. unfold year. Z.div_mod_to_equations. lia. }
  destruct (Z.eqb_spec n100 4) as [H100|H100].
  { unfold valid_ymd, days_in_month, ymd2ord, days_before_month, days_before_year,
      is_leap. table.
    assert ((year - 1) mod 4 = 0) as -> by (unfold year; Z.div_mod_to_equations; lia).
    assert ((year - 1) mod 400 = 0) as -> by (unfold year; Z.div_mod_to_equations; lia).
    cbn. rewrite orb_true_r. split; [lia|].
    unfold year. Z.div_mod_to_equations. lia. }
  assert (is_leap year = (n1 =? 3) && (negb (n4 =? 24) || (n100 =? 3))) as Hleap.
  { unfold is_leap.
    assert (year mod 4 = (n1 + 1) mod 4) as -> by (unfold year; Z.div_mod_to_equations; lia).
    assert (year mod 100 = (4 * n4 + n1 + 1) mod 100) as ->
        by (unfold year; Z.div_mod_to_equations; lia).
    assert (year mod 400 = (100 * n100 + 4 * n4 + n1 + 1) mod 400) as ->
        by (unfold year; Z.div_mod_to_equations; lia).
    destruct (Z.eqb_spec n1 3) as [->|?].
    - replace ((3 + 1) mod 4) with 0 by done. cbn [Z.eqb andb].
      destruct (Z.eqb_spec n4 24) as [->|?]; cbn [negb orb].
      + replace ((4 * 24 + 3 + 1) mod 100) with 0 by done. cbn [Z.eqb negb orb].
        destruct (Z.eqb_spec n100 3) as [->|?]; [done|].
        apply Z.eqb_neq. Z.div_mod_to_equations. lia.
      + assert (((4 * n4 + 3 + 1) mod 100 =? 0) = false) as ->; [|done].
        apply Z.eqb_neq. Z.div_mod_to_equations. lia.
    - assert (((n1 + 1) mod 4 =? 0) = false) as ->; [|done].
      apply Z.eqb_neq. Z.div_mod_to_equations. lia. }
  assert (days_before_year year
          = 146097 * n400 + 36524 * n100 + 1461 * n4 + 365 * n1) as Hdby.
  { unfold days_before_year, year. Z.div_mod_to_equations. lia. }
  rewrite <- Hleap. fold year. clear Hleap.
  rewrite Z.shiftr_div_pow2 by lia. change (2 ^ 5) with 32.
  pose proof (Z.div_mod (n + 50) 32 ltac:(lia)) as Em.
  pose proof (Z.mod_pos_bound (n + 50) 32 ltac:(lia)) as Bm.
  set (month := (n + 50) / 32) in *. set (rm := (n + 50) mod 32) in *.
  clearbody month rm.
  assert (month = 1 \/ month = 2 \/ month = 3 \/ month = 4 \/ month = 5 \/ month = 6
          \/ month = 7 \/ month = 8 \/ month = 9 \/ month = 10 \/ month = 11
          \/ month = 12) as Hmonth by lia.
  destruct (Z.ltb_spec n (nth (Z.to_nat month) DAYS_BEFORE_MONTH 0
                          + (if (2 <? month) && is_leap year then 1 else 0)))
    as [Hlt|Hlt];
    unfold valid_ymd, days_in_month, ymd2ord, days_before_month; rewrite Hdby;
    revert Hlt;
    generalize (is_leap year); intros leap Hlt;
    clear Hdby H1 H100 P1 P4 P100 P400;
    destruct Hmonth as [->|[->|[->|[->|[->|[->|[->|[->|[->|[->|[->| ->]]]]]]]]]]];
    destruct leap; table;
    repeat match goal with
           | |- context [?a <? ?b] => destruct (Z.ltb_spec a b); cbn [andb] in *; try lia
           | |- context [?a =? ?b] => destruct (Z.eqb_spec a b); cbn [andb] in *; try lia
           | H : context [?a <? ?b] |- _ =>
             destruct (Z.ltb_spec a b); cbn [andb] in *; try lia
           end;
    cbn [andb] in *; lia.
Qed.

Lemma days_before_year_succ (year : Z) :
  days_before_year (year + 1)
  = days_before_year year + 365 + (if is_leap year then 1 else 0).
Proof.
  unfold days_before_year, is_leap.
  replace (year + 1 - 1) with year by lia.
  destruct (Z.eqb_spec (year mod 4) 0), (Z.eqb_spec (year mod 100) 0),
    (Z.eqb_spec (year mod 400) 0); cbn [andb orb negb];
    Z.div_mod_to_equations; lia.
Qed.

Lemma days_before_year_mono (y1 y2 : Z) :
  y1 <= y2 -> days_before_year y1 <= days_before_year y2.
Proof. unfold days_before_year. intros H. Z.div_mod_to_equations. lia. Qed.

Lemma day_of_year_bound (year month day : Z) :
  valid_ymd (year, month, day) ->
  1 <= days_before_month year month + day <= 365 + (if is_leap year then 1 else 0).
Proof.
  unfold valid_ymd, days_in_month, days_before_month. intros [Hm Hd].
  assert (month = 1 \/ month = 2 \/ month = 3 \/ month = 4 \/ month = 5 \/ month = 6
          \/ month = 7 \/ month = 8 \/ month = 9 \/ month = 10 \/ month = 11
          \/ month = 12) as Hmonth by lia.
  clear Hm. revert Hd. generalize (is_leap year). intros leap Hd.
  destruct Hmonth as [->|[->|[->|[->|[->|[->|[->|[->|[->|[->|[->| ->]]]]]]]]]]];
    destruct leap; table; cbn in *; lia.
Qed.

Lemma days_before_month_next (year m1 m2 : Z) :
  1 <= m1 -> m1 < m2 <= 12 ->
  days_before_month year m1 + days_in_month year m1 <= days_before_month year m2.
Proof.
  unfold days_in_month, days_before_month. intros H1 H2.
  generalize (is_leap year). intros leap.
  assert (m1 = 1 \/ m1 = 2 \/ m1 = 3 \/ m1 = 4 \/ m1 = 5 \/ m1 = 6
          \/ m1 = 7 \/ m1 = 8 \/ m1 = 9 \/ m1 = 10 \/ m1 = 11) as Hm1 by lia.
  assert (m2 = 2 \/ m2 = 3 \/ m2 = 4 \/ m2 = 5 \/ m2 = 6
          \/ m2 = 7 \/ m2 = 8 \/ m2 = 9 \/ m2 = 10 \/ m2 = 11 \/ m2 = 12) as Hm2 by lia.
  destruct Hm1 as [->|[->|[->|[->|[->|[->|[->|[->|[->|[->| ->]]]]]]]]]];
    destruct Hm2 as [->|[->|[->|[->|[->|[->|[->|[->|[->|[->| ->]]]]]]]]]];
    try lia; destruct leap; table; cbn; lia.
Qed.

Lemma ymd2ord_lt (x y : Z * Z * Z) :
  valid_ymd x -> valid_ymd y -> ymd_compare x y = Lt -> ymd2ord x < ymd2ord y.
Proof.
  destruct x as [[y1 m1] d1], y as [[y2 m2] d2]. intros Hx Hy.
  pose proof (day_of_year_bound _ _ _ Hx) as Bx.
  pose proof (day_of_year_bound _ _ _ Hy) as By.
  unfold ymd_compare, ymd2ord. cbn [fst snd].
  destruct (Z.compare_spec y1 y2) as [->|Hlt|Hgt]; cbn [then_compare]; [| |done].
  - destruct (Z.compare_spec m1 m2) as [->|Hlt|Hgt]; cbn [then_compare]; [| |done].
    + intros H. change (d1 < d2) in H. lia.
    + intros _. destruct Hx as [Hm1 Hd1], Hy as [Hm2 Hd2].
      pose proof (days_before_month_next y2 m1 m2 ltac:(lia) ltac:(lia)). lia.
  - intros _.
    pose proof (days_before_year_succ y1).
    pose proof (days_before_year_mono (y1 + 1) y2 ltac:(lia)). lia.
Qed.

Lemma ymd_compare_eq (x y : Z * Z * Z) : ymd_compare x y = Eq -> x = y.
Proof.
  destruct x as [[y1 m1] d1], y as [[y2 m2] d2]. unfold ymd_compare. cbn [fst snd].
  destruct (Z.compare_spec y1 y2); cbn [then_compare]; [|done|done].
  destruct (Z.compare_spec m1 m2); cbn [then_compare]; [|done|done].
  intros ?%Z.compare_eq_iff. congruence.
Qed.

Lemma ymd_compare_gt (x y : Z * Z * Z) : ymd_compare x y = Gt -> ymd_compare y x = Lt.
Proof.
  destruct x as [[y1 m1] d1], y as [[y2 m2] d2]. unfold ymd_compare. cbn [fst snd].
  rewrite (Z.compare_antisym y1 y2), (Z.compare_antisym m1 m2),
    (Z.compare_antisym d1 d2).
  destruct (y1 ?= y2), (m1 ?= m2), (d1 ?= d2); done.
Qed.

Lemma ord2ymd_compare (o1 o2 : Z) :
  0 < o1 <= MAXORDINAL -> 0 < o2 <= MAXORDINAL ->
  ymd_compare (ord2ymd o1) (ord2ymd o2) = Z.compare o1 o2.
Proof.
  intros [V1 E1]%ymd2ord_ord2ymd [V2 E2]%ymd2ord_ord2ymd. symmetry.
  destruct (ymd_compare (ord2ymd o1) (ord2ymd o2)) eqn:Hc.
  - apply ymd_compare_eq in Hc. apply Z.compare_eq_iff. congruence.
  - apply ymd2ord_lt in Hc; [|done|done]. apply Z.compare_lt_iff. lia.
  - apply ymd_compare_gt, ymd2ord_lt in Hc; [|done|done].
    apply Z.compare_gt_iff. lia.
Qed.

Lemma date_range (d : date) : 0 < toordinal d <= MAXORDINAL.
Proof.
  destruct d as [o Ho]. simpl. unfold in_date_range in Ho.
  apply andb_true_iff in Ho as [H1 H2].
  apply Z.ltb_lt in H1. apply Z.leb_le in H2. done.
Qed.

(** X4.  Week identifiers in their canonical form compare as text the
    way their dates compare on the calendar: for two dates, the text
    order of their [isoformat()] strings is the order of the dates, and
    equal strings mean equal dates.  So [week_start < ?] on canonical
    weeks selects the weeks before the target week. *)
Theorem iso_date_order :
  forall d1 d2 : date,
    String.compare (iso_date d1) (iso_date d2) = Z.compare (toordinal d1) (toordinal d2)
    /\ String.ltb (iso_date d1) (iso_date d2) = (toordinal d1 <? toordinal d2)
    /\ (iso_date d1 = iso_date d2 <-> d1 = d2).
Proof.
  intros d1 d2.
  assert (String.compare (iso_date d1) (iso_date d2)
          = Z.compare (toordinal d1) (toordinal d2)) as Hc.
  { rewrite iso_date_compare. apply ord2ymd_compare; apply date_range. }
  split; [done|]. split.
  - unfold String.ltb, Z.ltb. by rewrite Hc.
  - split; [|by intros ->]. intros H.
    assert (toordinal d1 = toordinal d2) as Ho.
    { apply Z.compare_eq_iff. rewrite <- Hc, H. apply string_compare_refl. }
    destruct d1 as [o1 H1], d2 as [o2 H2]. simpl in Ho. subst o2. apply mkdate_ext.
Qed.

(** ** Further properties of [rotate] *)

(** X1.  The same rotate request a second time, with the same clock,
    gets the same answer as the first time and leaves the database as
    the first call left it. *)
Theorem rotate_idempotent :
  forall (db : DB) (hid : Z) (req : Request) (env : Env),
    rotate (rotate db hid req env).2 hid req env = rotate db hid req env.
Proof. apply rotate_twice. Qed.

(** When the week a rotate request names already has a row, [rotate]
    leaves the database as it is and answers with the rows of the week
    the query string names (this week's Monday when it names none),
    joined with chore titles and member names; that is the requested
    week's set when both name the same week. *)
Theorem rotate_replay_keeps_database :
  forall (db : DB) (hid : Z) (req : Request) (env : Env),
    week_rows db hid (rotate_week req env) <> [] ->
    (rotate db hid req env).2 = db
    /\ (rotate db hid req env).1
       = Json (mkWeekView (current_week req env)
                          (select_week db hid (current_week req env)))
    /\ (current_week req env = rotate_week req env ->
        (rotate db hid req env).1
        = Json (mkWeekView (rotate_week req env)
                           (select_week db hid (rotate_week req env)))).
Proof.
  intros db hid req env H. rewrite rotate_replay by done. simpl.
  split; [done|]. split; [done|]. by intros ->.
Qed.

Lemma rotate_replay_keeps_database_witness :
  (rotate sample_db_rotated 1 (sample_request "2024-06-10") sample_env).2
  = sample_db_rotated
  /\ (rotate sample_db_rotated 1 (sample_request "2024-06-10") sample_env).1
     = Json (mkWeekView "2024-06-10" (select_week sample_db_rotated 1 "2024-06-10")).
Proof.
  destruct (rotate_replay_keeps_database sample_db_rotated 1
              (sample_request "2024-06-10") sample_env) as (H1 & H2 & _).
  - vm_compute. discriminate.
  - split; [exact H1 | exact H2].
Defined.

(** X3.  One request at a time, no insert of [rotate] is rejected by a
    constraint of the schema: with chore ids that are unique (the
    table's primary key), [rotate] does not end in an [IntegrityError],
    whatever the week, the household and the rows already there. *)
Theorem rotate_alone_never_raises :
  forall (db : DB) (hid : Z) (req : Request) (env : Env) (message : string),
    NoDup (c_id <$> chores db) ->
    (rotate db hid req env).1 <> Unhandled (IntegrityError message).
Proof.
  intros db hid req env message Hnd.
  destruct (decide (week_rows db hid (rotate_week req env) = [])) as [Hw|Hw];
    [|by rewrite rotate_replay].
  destruct (decide (filter (fun c => c_household_id c = hid) (chores db) = []))
    as [Hc|Hc].
  { unfold rotate. by rewrite rotate_on_reject by auto. }
  destruct (decide (filter (fun m => m_household_id m = hid) (members db) = []))
    as [Hm|Hm].
  { unfold rotate. by rewrite rotate_on_reject by auto. }
  by rewrite rotate_fills_week.
Qed.

Lemma rotate_alone_never_raises_witness :
  (rotate sample_db 1 (sample_request "2024-06-10") sample_env).1
  <> Unhandled (IntegrityError UNIQUE_FAILED).
Proof.
  apply (rotate_alone_never_raises sample_db 1 (sample_request "2024-06-10")
           sample_env UNIQUE_FAILED).
  apply (bool_decide_unpack _). vm_compute. exact I.
Defined.

(** A row of the target week next to the sample database's rows, and a
    member without earlier rows. *)
Lemma history_counts_earlier_weeks_only_witness :
  past_count
    (with_assignments sample_week_db
       (assignments sample_week_db
        ++ mkAssignment 2 1 "2024-06-10" 1 3 "assigned" None "t" :: []))
    1 "2024-06-10" 3
  = past_count
      (with_assignments sample_week_db (assignments sample_week_db ++ []))
      1 "2024-06-10" 3
  /\ past_count sample_week_db 1 "2024-06-03" 2 = 0.
Proof.
  destruct history_counts_earlier_weeks_only as (_ & _ & H3 & H4 & _).
  split.
  - apply (H3 sample_week_db 1 "2024-06-10" 3 (assignments sample_week_db) []
              (mkAssignment 2 1 "2024-06-10" 1 3 "assigned" None "t") eq_refl).
  - apply (H4 sample_week_db 1 "2024-06-03" 2). vm_compute. constructor.
Defined.

(** * More of the service *)

(** ** What [rotate] leaves behind *)

Lemma rotate_cases (db : DB) (hid : Z) (req : Request) (env : Env) :
  (rotate db hid req env).2 = db
  \/ (week_rows db hid (rotate_week req env) = []
      /\ filter (fun c => c_household_id c = hid) (chores db) <> []
      /\ filter (fun m => m_household_id m = hid) (members db) <> []
      /\ (rotate db hid req env).2
         = with_new_assignments db
             (planned_rows (rowid_base db) hid (rotate_week req env)
                (pick_member_round_robin db hid (rotate_week req env)) env 0
                (select_chore_ids db hid))).
Proof.
  destruct (decide (week_rows db hid (rotate_week req env) = [])) as [Hw|Hw];
    [|left; by rewrite rotate_replay].
  destruct (decide (filter (fun c => c_household_id c = hid) (chores db) = []))
    as [Hc|Hc].
  { left. unfold rotate. by rewrite rotate_on_reject by auto. }
  destruct (decide (filter (fun m => m_household_id m = hid) (members db) = []))
    as [Hm|Hm].
  { left. unfold rotate. by rewrite rotate_on_reject by auto. }
  unfold rotate. rewrite rotate_on_assign by done.
  destruct (insert_loop_cases (select_chore_ids db hid) db hid (rotate_week req env)
              (pick_member_round_robin db hid (rotate_week req env)) env 0)
    as [-> | ->]; [by left|by right].
Qed.

Lemma planned_rows_ids (base hid : Z) (week_start : string) (order : list Z)
    (env : Env) (i : nat) (chores : list Z) :
  a_id <$> planned_rows base hid week_start order env i chores
  = (fun k : nat => base + 1 + Z.of_nat k) <$> seq 0 (length chores).
Proof.
  unfold planned_rows. rewrite fmap_imap.
  apply list_eq. intros k. rewrite list_lookup_imap, list_lookup_fmap.
  destruct (chores !! k) eqn:Hk; simpl.
  - rewrite lookup_seq_lt by (by eapply lookup_lt_Some). done.
  - rewrite lookup_seq_ge by (by apply lookup_ge_None). done.
Qed.

Lemma planned_rows_keys (base hid : Z) (week_start : string) (order : list Z)
    (env : Env) (i : nat) (chores : list Z) :
  assignment_key <$> planned_rows base hid week_start order env i chores
  = (fun c => (hid, week_start, c)) <$> chores.
Proof.
  unfold planned_rows. rewrite fmap_imap.
  apply list_eq. intros k. rewrite list_lookup_imap, list_lookup_fmap.
  by destruct (chores !! k).
Qed.

Lemma planned_rows_elem (base hid : Z) (week_start : string) (order : list Z)
    (env : Env) (i : nat) (chores : list Z) (a : Assignment) :
  a ∈ planned_rows base hid week_start order env i chores ->
  exists (k : nat) (c : Z),
    chores !! k = Some c
    /\ a = mkAssignment (base + 1 + Z.of_nat k) hid week_start c
             (cyclic_pick order (i + k)) "assigned" None (now_iso env (i + k)%nat).
Proof.
  intros [k Hk]%list_elem_of_lookup. unfold planned_rows in Hk.
  rewrite list_lookup_imap in Hk. destruct (chores !! k) as [c|] eqn:Hc; [|done].
  exists k, c. split; [done|]. simpl in Hk. congruence.
Qed.

Lemma cyclic_pick_elem (order : list Z) (i : nat) :
  order <> [] -> cyclic_pick order i ∈ order.
Proof.
  intros H. apply list_elem_of_lookup. eexists. by apply cyclic_pick_lookup.
Qed.

Lemma seq_ids_sorted (base : Z) (n : nat) :
  StronglySorted Z.lt ((fun k : nat => base + 1 + Z.of_nat k) <$> seq 0 n).
Proof.
  induction n as [|n IH]; [constructor|].
  rewrite seq_S, fmap_app. apply StronglySorted_app_2; [|done|repeat constructor].
  intros x y (k & -> & Hk%elem_of_seq)%list_elem_of_fmap ->%list_elem_of_singleton.
  simpl. lia.
Qed.

Lemma rowid_base_upper (db : DB) (a : Assignment) :
  a ∈ assignments db -> a_id a <= rowid_base db.
Proof.
  intros Ha. unfold rowid_base.
  assert (a_id a ∈ a_id <$> assignments db) as H by (by apply list_elem_of_fmap_2).
  apply sql_max_upper in H. lia.
Qed.

Lemma references_ok_mono (db db' : DB) (a : Assignment) :
  (forall c, c ∈ chores db -> c ∈ chores db') ->
  (forall m, m ∈ members db -> m ∈ members db') ->
  references_ok db a -> references_ok db' a.
Proof.
  intros Hc Hm [(c & ? & ?) (m & ? & ?)]. split; eauto.
Qed.

Lemma planned_rows_references (db : DB) (hid : Z) (week_start : string) (env : Env)
    (base : Z) (a : Assignment) :
  filter (fun m => m_household_id m = hid) (members db) <> [] ->
  a ∈ planned_rows base hid week_start
        (pick_member_round_robin db hid week_start) env 0 (select_chore_ids db hid) ->
  references_ok db a.
Proof.
  intros Hm (k & c & Hk & ->)%planned_rows_elem. split; simpl.
  - assert (c ∈ select_chore_ids db hid) as Hc by (by eapply list_elem_of_lookup_2).
    rewrite select_chore_ids_Permutation in Hc.
    apply list_elem_of_fmap in Hc as (row & -> & [Hh Hrow]%list_elem_of_filter).
    by exists row.
  - assert (cyclic_pick (pick_member_round_robin db hid week_start) k
            ∈ pick_member_round_robin db hid week_start) as Hp.
    { apply cyclic_pick_elem. by rewrite pick_member_round_robin_nil. }
    generalize dependent (cyclic_pick (pick_member_round_robin db hid week_start) k).
    intros x Hp. rewrite pick_member_round_robin_Permutation in Hp.
    apply list_elem_of_fmap in Hp as (row & Hid & [Hh Hrow]%list_elem_of_filter).
    by exists row.
Qed.

Lemma rotate_assignments_ok (db : DB) (hid : Z) (req : Request) (env : Env) :
  chores_in_order db -> assignments_ok db -> assignments_ok (rotate db hid req env).2.
Proof.
  intros Hch (Hids & Hkeys & Hrefs & Hst).
  destruct (rotate_cases db hid req env) as [-> | (Hw & Hc & Hm & ->)]; [done|].
  set (week_start := rotate_week req env) in *.
  set (rows := planned_rows _ _ _ _ _ _ _).
  unfold assignments_ok. simpl. repeat split.
  - rewrite fmap_app. apply StronglySorted_app_2; [|done|].
    + intros x y (a & -> & Ha%rowid_base_upper)%list_elem_of_fmap Hy.
      unfold rows in Hy. rewrite planned_rows_ids in Hy.
      apply list_elem_of_fmap in Hy as (k & -> & _). lia.
    + unfold rows. rewrite planned_rows_ids. apply seq_ids_sorted.
  - rewrite fmap_app. apply NoDup_app. split; [done|]. split.
    + intros key (a & -> & Ha)%list_elem_of_fmap Hnew.
      unfold rows in Hnew. rewrite planned_rows_keys in Hnew.
      apply list_elem_of_fmap in Hnew as (c & Hkey & _).
      injection Hkey as Hh Hwk _.
      eapply (filter_nil_not_elem_of _ _ a Hw); [|exact Ha]. done.
    + unfold rows. rewrite planned_rows_keys. apply NoDup_fmap_2.
      * intros c1 c2 ?. congruence.
      * apply select_chore_ids_NoDup. by apply sorted_lt_NoDup.
  - apply Forall_app. split.
    + eapply Forall_impl; [exact Hrefs|]. intros a Ha.
      by apply (references_ok_mono db).
    + apply Forall_forall. intros a Ha.
      apply (references_ok_mono db); [done|done|].
      by eapply planned_rows_references.
  - apply Forall_app. split; [done|].
    apply Forall_forall. intros a (k & c & _ & ->)%planned_rows_elem. by left.
Qed.

Lemma update_done_ids (proof_url : option string) (aid : Z) (rows : list Assignment) :
  a_id <$> update_done proof_url aid rows = a_id <$> rows.
Proof.
  unfold update_done. rewrite <- list_fmap_compose. apply list_fmap_ext.
  intros i a _. simpl. by case_bool_decide.
Qed.

Lemma update_done_keys (proof_url : option string) (aid : Z) (rows : list Assignment) :
  assignment_key <$> update_done proof_url aid rows = assignment_key <$> rows.
Proof.
  unfold update_done. rewrite <- list_fmap_compose. apply list_fmap_ext.
  intros i a _. simpl. by case_bool_decide.
Qed.

Lemma complete_assignment_ok (db : DB) (aid : Z) (req : CompleteRequest) :
  assignments_ok db -> assignments_ok (complete_assignment db aid req).2.
Proof.
  intros (Hids & Hkeys & Hrefs & Hst). unfold complete_assignment.
  destruct (fits_int64 aid); [|done]. cbn [negb].
  destruct (_ =? 0); [done|]. unfold assignments_ok. simpl.
  rewrite update_done_ids, update_done_keys. repeat split; [done|done| |].
  - unfold update_done. apply Forall_fmap.
    eapply Forall_impl; [exact Hrefs|]. intros a Ha. simpl.
    by case_bool_decide.
  - unfold update_done. apply Forall_fmap.
    eapply Forall_impl; [exact Hst|]. intros a Ha. simpl.
    case_bool_decide; [by right|done].
Qed.

Lemma handle_assignments_ok (db : DB) (c : Call) (env : Env) :
  chores_in_order db -> assignments_ok db -> assignments_ok (handle db c env).
Proof.
  intros Hch Hok.
  destruct c as [name|hid name email|hid title cadence|hid req|aid req]; simpl.
  - unfold create_household. by destruct (falsy name).
  - unfold add_member, add_member_on. destruct (falsy name); [done|].
    destruct Hok as (Hids & Hkeys & Hrefs & Hst). repeat split; try done. simpl.
    eapply Forall_impl; [exact Hrefs|]. intros a.
    apply references_ok_mono; [done|]. simpl. intros m Hm.
    apply elem_of_app. by left.
  - unfold add_chore. destruct (falsy title); [done|].
    destruct (get_or cadence "weekly") as [cad|]; [|done].
    destruct Hok as (Hids & Hkeys & Hrefs & Hst). repeat split; try done. simpl.
    eapply Forall_impl; [exact Hrefs|]. intros a.
    apply references_ok_mono; [|done]. simpl. intros x Hx.
    apply elem_of_app. by left.
  - by apply rotate_assignments_ok.
  - by apply complete_assignment_ok.
Qed.

Lemma reachable_assignments_ok (db : DB) : reachable db -> assignments_ok db.
Proof.
  induction 1 as [|db c env Hr IH].
  - repeat split; constructor.
  - apply handle_assignments_ok; [|done]. by apply reachable_chores_in_order.
Qed.

(** ** The join of [get_current_assignments] *)

Lemma filter_none {A} (P : A -> Prop) `{!forall x, Decision (P x)} (l : list A) :
  (forall x, x ∈ l -> ~ P x) -> filter P l = [].
Proof.
  induction l as [|y l IH]; [done|]. intros Hno.
  rewrite filter_cons_False by (apply Hno; left).
  apply IH. intros x Hx. apply Hno. by right.
Qed.

Lemma filter_unique {A} (f : A -> Z) (l : list A) (x : A) :
  NoDup (f <$> l) -> x ∈ l -> filter (fun y => f y = f x) l = [x].
Proof.
  induction l as [|y l IH]; [by intros _ ?%elem_of_nil|].
  rewrite fmap_cons. intros [Hy Hl]%NoDup_cons [->|Hx]%elem_of_cons.
  - rewrite filter_cons_True by done. f_equal.
    apply filter_none. intros z Hz Hf. apply Hy. rewrite <- Hf.
    by apply list_elem_of_fmap_2.
  - rewrite filter_cons_False; [by apply IH|].
    intros Hf. apply Hy. rewrite Hf. by apply list_elem_of_fmap_2.
Qed.

Lemma join_views (db : DB) (rows : list Assignment) :
  NoDup (c_id <$> chores db) -> NoDup (m_id <$> members db) ->
  Forall (references_ok db) rows ->
  Forall2 (view_of db) rows
    (a ← rows;
     c ← filter (fun c => c_id c = a_chore_id a) (chores db);
     m ← filter (fun m => m_id m = a_member_id a) (members db);
     [mkAssignmentView a (c_title c) (m_name m)]).
Proof.
  intros Hc Hm. induction 1 as [|a rows [(c & Hcin & Hcid & _) (m & Hmin & Hmid & _)] _ IH];
    [constructor|].
  rewrite bind_cons.
  rewrite <- Hcid, (filter_unique c_id _ c) by done.
  rewrite bind_singleton.
  rewrite <- Hmid, (filter_unique m_id _ m) by done.
  rewrite bind_singleton. simpl.
  constructor; [|exact IH].
  split; [done|]. split; [by exists c | by exists m].
Qed.

Lemma sorted_filter_fmap {A} (f : A -> Z) (P : A -> Prop) `{!forall x, Decision (P x)}
    (l : list A) :
  StronglySorted Z.lt (f <$> l) -> StronglySorted Z.lt (f <$> filter P l).
Proof.
  induction l as [|x l IH]; [done|]. rewrite fmap_cons.
  intros [Hx Hl]%StronglySorted_cons. rewrite filter_cons.
  destruct (decide (P x)); [|auto].
  rewrite fmap_cons. constructor; [auto|].
  apply Forall_forall. intros y (z & -> & [_ Hz]%list_elem_of_filter)%list_elem_of_fmap.
  apply (proj1 (Forall_forall _ _) Hx). by apply list_elem_of_fmap_2.
Qed.

Lemma sorted_fmap_inv {A} (f : A -> Z) (R : A -> A -> Prop) (l : list A) :
  (forall x y, f x < f y -> R x y) ->
  StronglySorted Z.lt (f <$> l) -> StronglySorted R l.
Proof.
  intros HR. induction l as [|x l IH]; [constructor|]. rewrite fmap_cons.
  intros [Hx Hl]%StronglySorted_cons. constructor; [auto|].
  apply Forall_forall. intros y Hy. apply HR.
  apply (proj1 (Forall_forall _ _) Hx). by apply list_elem_of_fmap_2.
Qed.

Lemma views_assignments (db : DB) (rows : list Assignment) (views : list AssignmentView) :
  Forall2 (view_of db) rows views -> av_assignment <$> views = rows.
Proof.
  induction 1 as [|a v rows views [Hv _] _ IH]; [done|].
  by rewrite fmap_cons, Hv, IH.
Qed.

Lemma select_week_views (db : DB) (hid : Z) (week_start : string) :
  chores_in_order db -> members_in_order db -> assignments_ok db ->
  Forall2 (view_of db) (week_rows db hid week_start) (select_week db hid week_start).
Proof.
  intros Hc [Hm _] (Hids & _ & Hrefs & _).
  assert (Forall2 (view_of db) (week_rows db hid week_start)
            (a ← week_rows db hid week_start;
             c ← filter (fun c => c_id c = a_chore_id a) (chores db);
             m ← filter (fun m => m_id m = a_member_id a) (members db);
             [mkAssignmentView a (c_title c) (m_name m)])) as Hj.
  { apply join_views; [by apply sorted_lt_NoDup | by apply sorted_lt_NoDup|].
    apply Forall_forall. intros a [_ Ha]%list_elem_of_filter.
    by apply (proj1 (Forall_forall _ _) Hrefs). }
  unfold select_week. rewrite stable_sort_id; [done|].
  apply (sorted_fmap_inv (fun v => a_id (av_assignment v))).
  - unfold not_after. intros x y Hxy. apply Z.ltb_ge. lia.
  - rewrite (list_fmap_compose av_assignment a_id), (views_assignments _ _ _ Hj).
    by apply sorted_filter_fmap.
Qed.

(** ** The load of one week *)

Lemma succ_div_mod (n k : nat) :
  (0 < k)%nat ->
  (S (n `mod` k) < k /\ S n `div` k = n `div` k /\ S n `mod` k = S (n `mod` k))%nat
  \/ (S (n `mod` k) = k /\ S n `div` k = S (n `div` k) /\ S n `mod` k = 0)%nat.
Proof.
  intros Hk.
  pose proof (Nat.div_mod_eq n k) as Hn.
  pose proof (Nat.mod_upper_bound n k ltac:(lia)) as Hr.
  destruct (decide (S (n `mod` k) < k)%nat) as [Hlt|Hge]; [left|right].
  - split; [done|]. split.
    + symmetry. apply (Nat.div_unique _ _ _ (S (n `mod` k))); lia.
    + symmetry. apply (Nat.mod_unique _ _ (n `div` k)); lia.
  - split; [lia|]. split.
    + symmetry. apply (Nat.div_unique _ _ _ 0%nat); lia.
    + symmetry. apply (Nat.mod_unique _ _ (S (n `div` k))); lia.
Qed.

Lemma count_mod (k j : nat) (n : nat) :
  (j < k)%nat ->
  length (filter (fun i => (i `mod` k)%nat = j) (seq 0 n)) = share n k j.
Proof.
  intros Hj. unfold share. induction n as [|n IH].
  - simpl. rewrite Nat.Div0.div_0_l, Nat.Div0.mod_0_l. by destruct (decide _); [lia|].
  - rewrite seq_S, filter_app, length_app, IH. simpl.
    destruct (succ_div_mod n k ltac:(lia)) as [(H1 & -> & ->)|(H1 & -> & ->)].
    + destruct (decide (n `mod` k = j)%nat) as [Heq|Hne].
      * rewrite filter_cons_True by done. simpl.
        repeat destruct (decide _); lia.
      * rewrite filter_cons_False by done. simpl.
        repeat destruct (decide _); lia.
    + destruct (decide (n `mod` k = j)%nat) as [Heq|Hne].
      * rewrite filter_cons_True by done. simpl.
        repeat destruct (decide _); lia.
      * rewrite filter_cons_False by done. simpl.
        repeat destruct (decide _); lia.
Qed.

Lemma planned_rows_members (base hid : Z) (week_start : string) (order : list Z)
    (env : Env) (chores : list Z) :
  a_member_id <$> planned_rows base hid week_start order env 0 chores
  = cyclic_pick order <$> seq 0 (length chores).
Proof.
  unfold planned_rows. rewrite fmap_imap.
  apply list_eq. intros k. rewrite list_lookup_imap, list_lookup_fmap.
  destruct (chores !! k) eqn:Hk; simpl.
  - rewrite lookup_seq_lt by (by eapply lookup_lt_Some). done.
  - rewrite lookup_seq_ge by (by apply lookup_ge_None). done.
Qed.

Lemma load_planned_rows (base hid : Z) (week_start : string) (order : list Z)
    (env : Env) (chores : list Z) (j : nat) (m : Z) :
  NoDup order -> order !! j = Some m ->
  load m (planned_rows base hid week_start order env 0 chores)
  = share (length chores) (length order) j.
Proof.
  intros Hnd Hj. unfold load.
  rewrite <- (filter_fmap_length a_member_id), planned_rows_members.
  rewrite filter_fmap_length.
  assert (j < length order)%nat as Hlt by (by eapply lookup_lt_Some).
  rewrite <- (count_mod (length order) j) by done. f_equal.
  apply list_filter_iff. intros i.
  assert (order !! (i `mod` length order)%nat = Some (cyclic_pick order i)) as Hi.
  { apply cyclic_pick_lookup. by destruct order. }
  split.
  - intros Heq. rewrite Heq in Hi. by eapply NoDup_lookup.
  - intros Heq. rewrite Heq in Hi. congruence.
Qed.

Lemma share_bounds (n k i j : nat) :
  (i <= j)%nat -> (share n k j <= share n k i <= S (share n k j))%nat.
Proof. intros Hij. unfold share. repeat destruct (decide _); lia. Qed.

Lemma household_member_ids_NoDup (db : DB) (hid : Z) :
  NoDup (m_id <$> members db) ->
  NoDup (m_id <$> filter (fun m => m_household_id m = hid) (members db)).
Proof.
  intros Hnd. eapply sublist_NoDup; [exact Hnd|].
  apply fmap_sublist, sublist_filter.
Qed.

Lemma pick_member_round_robin_NoDup (db : DB) (hid : Z) (week_start : string) :
  NoDup (m_id <$> members db) -> NoDup (pick_member_round_robin db hid week_start).
Proof.
  intros Hnd. rewrite pick_member_round_robin_Permutation.
  by apply household_member_ids_NoDup.
Qed.

Lemma rotate_week_load (db : DB) (hid : Z) (req : Request) (env : Env) (j : nat) (m : Z) :
  NoDup (c_id <$> chores db) -> NoDup (m_id <$> members db) ->
  week_rows db hid (rotate_week req env) = [] ->
  filter (fun c => c_household_id c = hid) (chores db) <> [] ->
  filter (fun m => m_household_id m = hid) (members db) <> [] ->
  pick_member_round_robin db hid (rotate_week req env) !! j = Some m ->
  load m (week_rows (rotate db hid req env).2 hid (rotate_week req env))
  = share (length (select_chore_ids db hid))
          (length (pick_member_round_robin db hid (rotate_week req env))) j.
Proof.
  intros Hc Hm Hw Hch Hmem Hj.
  rewrite rotate_fills_week by done. simpl.
  rewrite week_rows_planned, Hw. simpl.
  apply load_planned_rows; [|done]. by apply pick_member_round_robin_NoDup.
Qed.




Lemma StronglySorted_lookup {A} (R : A -> A -> Prop) (l : list A) (i j : nat) (x y : A) :
  StronglySorted R l -> (i < j)%nat -> l !! i = Some x -> l !! j = Some y -> R x y.
Proof.
  intros Hs. revert i j. induction Hs as [|z l Hs IH Hz]; intros i j Hij Hi Hj; [done|].
  destruct j as [|j]; [lia|]. simpl in Hj. destruct i as [|i]; simpl in Hi.
  - injection Hi as <-. apply (proj1 (Forall_forall _ _) Hz).
    by eapply list_elem_of_lookup_2.
  - apply (IH i j); [lia|done|done].
Qed.

Lemma fair_order_counts_ascend (db : DB) (hid : Z) (week_start : string)
    (i j : nat) (m m' : Z) :
  (i <= j)%nat ->
  pick_member_round_robin db hid week_start !! i = Some m ->
  pick_member_round_robin db hid week_start !! j = Some m' ->
  past_count db hid week_start m <= past_count db hid week_start m'.
Proof.
  intros Hij. rewrite pick_member_round_robin_scores.
  set (scored := _ <$> select_members db hid).
  rewrite !list_lookup_fmap.
  destruct (stable_sort score_ltb scored !! i) as [s|] eqn:Hi; [|done].
  destruct (stable_sort score_ltb scored !! j) as [s'|] eqn:Hj; [|done].
  simpl. intros [= <-] [= <-].
  assert (forall x, x ∈ stable_sort score_ltb scored ->
                    x.1.1 = past_count db hid week_start x.2) as Hscore.
  { intros x Hx. rewrite stable_sort_Permutation in Hx.
    by apply list_elem_of_fmap in Hx as (row & -> & _). }
  rewrite <- (Hscore s), <- (Hscore s') by (by eapply list_elem_of_lookup_2).
  destruct (decide (i = j)) as [->|Hne]; [by simplify_eq|].
  pose proof (StronglySorted_lookup _ _ i j s s' (sorted_scores scored)
                ltac:(lia) Hi Hj) as Hle.
  destruct s as [[c1 j1] i1], s' as [[c2 j2] i2]. simpl in *. lia.
Qed.


Lemma rotate_week_share (db : DB) (hid : Z) (req : Request) (env : Env)
    (j : nat) (m : Z) :
  NoDup (c_id <$> chores db) -> NoDup (m_id <$> members db) ->
  week_rows db hid (rotate_week req env) = [] ->
  filter (fun c => c_household_id c = hid) (chores db) <> [] ->
  filter (fun m => m_household_id m = hid) (members db) <> [] ->
  pick_member_round_robin db hid (rotate_week req env) !! j = Some m ->
  load m (week_rows (rotate db hid req env).2 hid (rotate_week req env))
  = share (length (filter (fun c => c_household_id c = hid) (chores db)))
          (length (filter (fun m => m_household_id m = hid) (members db))) j.
Proof.
  intros Hc Hm Hw Hch Hmem Hj.
  rewrite (rotate_week_load db hid req env j m) by done. f_equal.
  - rewrite select_chore_ids_Permutation. by rewrite length_fmap.
  - rewrite pick_member_round_robin_Permutation. by rewrite length_fmap.
Qed.

(** X7.  When [rotate] fills a week with [n] chores for [k] members,
    the member at position [j] of the fair order gets [n div k] chores
    and one more if [j < n mod k]: no member gets more than one chore
    more than another, and nobody gets more than a member who stands
    earlier in the fair order. *)
Theorem rotate_balances_week :
  forall (db : DB) (hid : Z) (req : Request) (env : Env),
    NoDup (c_id <$> chores db) -> NoDup (m_id <$> members db) ->
    week_rows db hid (rotate_week req env) = [] ->
    filter (fun c => c_household_id c = hid) (chores db) <> [] ->
    filter (fun m => m_household_id m = hid) (members db) <> [] ->
    let order := pick_member_round_robin db hid (rotate_week req env) in
    let rows := week_rows (rotate db hid req env).2 hid (rotate_week req env) in
    let n := length (filter (fun c => c_household_id c = hid) (chores db)) in
    let k := length (filter (fun m => m_household_id m = hid) (members db)) in
    (forall (j : nat) (m : Z),
       order !! j = Some m ->
       load m rows = (n `div` k + (if decide (j < n `mod` k)%nat then 1 else 0))%nat)
    /\ (forall m m' : Z, m ∈ order -> m' ∈ order -> (load m rows <= S (load m' rows))%nat)
    /\ (forall (i j : nat) (m m' : Z),
          (i <= j)%nat -> order !! i = Some m -> order !! j = Some m' ->
          (load m' rows <= load m rows)%nat).
Proof.
  intros db hid req env Hc Hm Hw Hch Hmem order rows n k.
  assert (forall (j : nat) (m : Z), order !! j = Some m -> load m rows = share n k j)
    as Hload.
  { intros j m Hj. by apply rotate_week_share. }
  split; [exact Hload|]. split.
  - intros m m' [i Hi]%list_elem_of_lookup [j Hj]%list_elem_of_lookup.
    rewrite (Hload i m Hi), (Hload j m' Hj).
    destruct (decide (i <= j)%nat).
    + pose proof (share_bounds n k i j ltac:(lia)). lia.
    + pose proof (share_bounds n k j i ltac:(lia)). lia.
  - intros i j m m' Hij Hi Hj. rewrite (Hload i m Hi), (Hload j m' Hj).
    pose proof (share_bounds n k i j Hij). lia.
Qed.



(** ** [get_household] *)

Lemma rotate_households (db : DB) (hid : Z) (req : Request) (env : Env) :
  households (rotate db hid req env).2 = households db.
Proof. by destruct (rotate_cases db hid req env) as [-> | (_ & _ & _ & ->)]. Qed.

Lemma handle_households_in_order (db : DB) (c : Call) (env : Env) :
  households_in_order db -> households_in_order (handle db c env).
Proof.
  unfold households_in_order. intros Hh.
  destruct c as [name|hid name email|hid title cadence|hid req|aid req]; simpl.
  - unfold create_household. destruct (falsy name); [done|]. simpl.
    rewrite fmap_app. apply StronglySorted_app_2; [|done|repeat constructor].
    intros x y Hx ->%list_elem_of_singleton.
    by apply (proj1 (Forall_forall _ _) (next_rowid_fresh _ (seq_households db))).
  - unfold add_member, add_member_on. by destruct (falsy name).
  - unfold add_chore. by destruct (falsy title), (get_or cadence "weekly").
  - by rewrite rotate_households.
  - unfold complete_assignment. destruct (fits_int64 aid); [|done].
    by destruct (_ =? 0).
Qed.

Lemma reachable_households_in_order (db : DB) : reachable db -> households_in_order db.
Proof.
  induction 1 as [|db c env _ IH]; [constructor|by apply handle_households_in_order].
Qed.

Lemma sort_insert_last {A} (ltb : A -> A -> bool) (x : A) (l : list A) :
  Forall (fun y => ltb y x = true) l -> sort_insert ltb x l = l ++ [x].
Proof.
  induction 1 as [|y l Hy Hl IH]; [done|]. simpl. by rewrite Hy, IH.
Qed.

(** Sorting an ascending list in descending order reverses it. *)
Lemma stable_sort_reverse {A} (f : A -> Z) (l : list A) :
  StronglySorted Z.lt (f <$> l) ->
  stable_sort (fun x y => f y <? f x) l = reverse l.
Proof.
  induction l as [|x l IH]; [done|]. rewrite fmap_cons.
  intros [Hx Hl]%StronglySorted_cons. simpl. rewrite IH by done.
  rewrite reverse_cons. apply sort_insert_last.
  apply Forall_forall. intros y Hy. rewrite elem_of_reverse in Hy. simpl.
  apply Z.ltb_lt, (proj1 (Forall_forall _ _) Hx). by apply list_elem_of_fmap_2.
Qed.

Lemma select_chores_desc_in_order (db : DB) (hid : Z) :
  chores_in_order db ->
  select_chores_desc db hid
  = reverse (filter (fun c => c_household_id c = hid) (chores db)).
Proof.
  intros Hc. unfold select_chores_desc. apply (stable_sort_reverse c_id).
  by apply sorted_filter_fmap.
Qed.

Lemma select_members_in_order (db : DB) (hid : Z) :
  members_in_order db ->
  select_members db hid = filter (fun m => m_household_id m = hid) (members db).
Proof.
  intros [_ Hjo]. unfold select_members. apply stable_sort_id.
  apply (sorted_fmap_inv m_join_order).
  - unfold not_after, member_ltb. intros x y Hxy.
    destruct (Z.eqb_spec (m_join_order y) (m_join_order x)); [lia|].
    apply Z.ltb_ge. lia.
  - fold (join_orders db hid). rewrite (Hjo hid). apply seqZ_sorted.
Qed.

Lemma fmap_inj_elem {A} (f : A -> Z) (l : list A) (x y : A) :
  NoDup (f <$> l) -> x ∈ l -> y ∈ l -> f x = f y -> x = y.
Proof.
  intros Hnd Hx Hy Hf.
  pose proof (filter_unique f l x Hnd Hx) as Hfx.
  assert (y ∈ filter (fun z => f z = f x) l) as Hin by (by apply list_elem_of_filter).
  rewrite Hfx in Hin. by apply list_elem_of_singleton in Hin.
Qed.

Lemma get_household_found (db : DB) (h : Household) :
  households_in_order db -> chores_in_order db -> members_in_order db ->
  h ∈ households db -> fits_int64 (h_id h) = true ->
  get_household db (h_id h)
  = Json (mkHouseholdDetail h
            (filter (fun m => m_household_id m = h_id h) (members db))
            (reverse (filter (fun c => c_household_id c = h_id h) (chores db)))).
Proof.
  intros Hh Hc Hm Hin Hfit. unfold get_household. rewrite Hfit. cbn [negb].
  rewrite (filter_unique h_id _ h); [|by apply sorted_lt_NoDup|done].
  by rewrite select_members_in_order, select_chores_desc_in_order.
Qed.

Lemma get_household_missing (db : DB) (hid : Z) :
  fits_int64 hid = true ->
  (forall h, h ∈ households db -> h_id h <> hid) ->
  get_household db hid = JsonError 404 "not found".
Proof.
  intros Hfit Hno. unfold get_household. rewrite Hfit. by rewrite filter_none.
Qed.

Lemma get_household_overflow (db : DB) (hid : Z) :
  fits_int64 hid = false ->
  get_household db hid = Unhandled (OverflowError INT_TOO_LARGE).
Proof. intros Hfit. unfold get_household. by rewrite Hfit. Qed.

(** ** Rows are written once *)

Lemma filter_fmap_core {A B} (f : A -> A) (g : A -> B) (P : A -> Prop)
    `{!forall x, Decision (P x)} (l : list A) :
  (forall x, P (f x) <-> P x) -> (forall x, g (f x) = g x) ->
  g <$> filter P (f <$> l) = g <$> filter P l.
Proof.
  intros HP Hg. induction l as [|x l IH]; [done|]. rewrite fmap_cons, !filter_cons.
  destruct (decide (P (f x))) as [H1|H1], (decide (P x)) as [H2|H2].
  - by rewrite !fmap_cons, Hg, IH.
  - destruct H2. by apply HP.
  - destruct H1. by apply HP.
  - done.
Qed.

Lemma update_done_week_core (proof_url : option string) (aid hid : Z)
    (week_start : string) (rows : list Assignment) :
  assignment_core <$> filter (fun a => a_household_id a = hid
                                       /\ a_week_start a = week_start)
                             (update_done proof_url aid rows)
  = assignment_core <$> filter (fun a => a_household_id a = hid
                                         /\ a_week_start a = week_start) rows.
Proof.
  unfold update_done. apply filter_fmap_core.
  - intros a. by case_bool_decide.
  - intros a. by case_bool_decide.
Qed.

Lemma rotate_other_rows (db : DB) (hid : Z) (req : Request) (env : Env)
    (hid' : Z) (week_start : string) :
  hid' <> hid \/ week_start <> rotate_week req env ->
  week_rows (rotate db hid req env).2 hid' week_start = week_rows db hid' week_start.
Proof.
  intros Hne.
  destruct (rotate_cases db hid req env) as [-> | (_ & _ & _ & ->)]; [done|].
  unfold week_rows. simpl. rewrite filter_app.
  rewrite (filter_none _ (planned_rows _ _ _ _ _ _ _)); [by rewrite app_nil_r|].
  intros a Ha [Hh Hw].
  pose proof (proj1 (Forall_forall _ _) (planned_rows_week _ _ _ _ _ _ _) a Ha)
    as [Hh' Hw'].
  destruct Hne; congruence.
Qed.

Lemma rotate_same_rows (db : DB) (hid : Z) (req : Request) (env : Env) :
  week_rows db hid (rotate_week req env) <> [] ->
  week_rows (rotate db hid req env).2 hid (rotate_week req env)
  = week_rows db hid (rotate_week req env).
Proof. intros Hw. by rewrite rotate_replay. Qed.

Lemma handle_week_core (db : DB) (c : Call) (env : Env) (hid : Z) (week_start : string) :
  week_rows db hid week_start <> [] ->
  assignment_core <$> week_rows (handle db c env) hid week_start
  = assignment_core <$> week_rows db hid week_start.
Proof.
  intros Hw.
  destruct c as [name|hid' name email|hid' title cadence|hid' req|aid req]; simpl.
  - unfold create_household. by destruct (falsy name).
  - unfold add_member, add_member_on. by destruct (falsy name).
  - unfold add_chore. by destruct (falsy title), (get_or cadence "weekly").
  - destruct (decide (hid = hid' /\ week_start = rotate_week req env)) as [[-> ->]|Hne].
    + by rewrite rotate_same_rows.
    + rewrite rotate_other_rows; [done|].
      destruct (decide (hid = hid')); [right|left]; naive_solver.
  - unfold complete_assignment.
    destruct (fits_int64 aid); cbn [negb]; [|try done; by eexists].
    destruct (_ =? 0); [done|].
    apply update_done_week_core.
Qed.

Lemma reaches_week_core (db db' : DB) (hid : Z) (week_start : string) :
  reaches db db' ->
  week_rows db hid week_start <> [] ->
  assignment_core <$> week_rows db' hid week_start
  = assignment_core <$> week_rows db hid week_start.
Proof.
  induction 1 as [|db' c env Hr IH]; [done|]. intros Hw.
  rewrite handle_week_core; [by apply IH|].
  intros Hnil. specialize (IH Hw). rewrite Hnil in IH.
  symmetry in IH. apply fmap_nil_inv in IH. done.
Qed.

(** ** Completion again *)

Lemma update_done_twice (p1 p2 : option string) (aid : Z) (rows : list Assignment) :
  update_done p2 aid (update_done p1 aid rows) = update_done p2 aid rows.
Proof.
  unfold update_done. rewrite <- list_fmap_compose. apply list_fmap_ext.
  intros i a _. simpl. destruct (decide (a_id a = aid)) as [Ha|Ha].
  - rewrite (bool_decide_eq_true_2 (a_id a = aid)) by done. simpl.
    by rewrite bool_decide_eq_true_2.
  - rewrite (bool_decide_eq_false_2 (a_id a = aid)) by done.
    by rewrite bool_decide_eq_false_2.
Qed.

Lemma update_done_rowcount (p : option string) (aid : Z) (rows : list Assignment) :
  length (filter (fun a => a_id a = aid) (update_done p aid rows))
  = length (filter (fun a => a_id a = aid) rows).
Proof.
  rewrite <- !(filter_fmap_length a_id). by rewrite update_done_ids.
Qed.

Lemma complete_assignment_twice (db : DB) (aid : Z) (r1 r2 : CompleteRequest) :
  complete_assignment (complete_assignment db aid r1).2 aid r2
  = complete_assignment db aid r2.
Proof.
  destruct (fits_int64 aid) eqn:Hfit;
    [|by rewrite !complete_assignment_overflow by done].
  unfold complete_assignment at 2. rewrite Hfit. cbn [negb].
  destruct (_ =? 0) eqn:Hcount; [done|]. simpl.
  unfold complete_assignment. rewrite Hfit. simpl.
  rewrite update_done_rowcount, Hcount. by rewrite update_done_twice.
Qed.

Lemma update_done_past (p : option string) (aid hid : Z) (week_start : string)
    (rows : list Assignment) :
  a_member_id <$> filter (fun a => a_household_id a = hid
                                   /\ String.ltb (a_week_start a) week_start = true)
                         (update_done p aid rows)
  = a_member_id <$> filter (fun a => a_household_id a = hid
                                     /\ String.ltb (a_week_start a) week_start = true)
                           rows.
Proof.
  unfold update_done. apply filter_fmap_core.
  - intros a. by case_bool_decide.
  - intros a. by case_bool_decide.
Qed.

Lemma complete_assignment_order (db : DB) (aid : Z) (req : CompleteRequest)
    (hid : Z) (week_start : string) :
  pick_member_round_robin (complete_assignment db aid req).2 hid week_start
  = pick_member_round_robin db hid week_start.
Proof.
  unfold complete_assignment.
  destruct (fits_int64 aid); cbn [negb]; [|done].
  destruct (_ =? 0); [done|].
  unfold pick_member_round_robin, select_history, past_assignments, select_members.
  simpl. by rewrite update_done_past.
Qed.

(** ** The week key *)

Lemma date_ext (d1 d2 : date) : toordinal d1 = toordinal d2 -> d1 = d2.
Proof.
  destruct d1 as [o1 H1], d2 as [o2 H2]. simpl. intros ->. apply mkdate_ext.
Qed.

Lemma iso_date_ordinal_compare (d1 d2 : date) :
  String.compare (iso_date d1) (iso_date d2) = Z.compare (toordinal d1) (toordinal d2).
Proof. rewrite iso_date_compare. apply ord2ymd_compare; apply date_range. Qed.

Lemma iso_date_inj (d1 d2 : date) : iso_date d1 = iso_date d2 -> d1 = d2.
Proof.
  intros H. apply date_ext, Z.compare_eq_iff.
  rewrite <- iso_date_ordinal_compare, H. apply string_compare_refl.
Qed.

Lemma monday_of_week_same (d1 d2 : date) :
  monday_of_week d1 = monday_of_week d2
  <-> toordinal (monday_of_week d1) <= toordinal d2 < toordinal (monday_of_week d1) + 7.
Proof.
  split.
  - intros ->. unfold monday_of_week, weekday. simpl.
    pose proof (Z.mod_pos_bound (toordinal d2 + 6) 7 ltac:(lia)). lia.
  - intros H. apply date_ext. revert H. unfold monday_of_week, weekday. simpl.
    intros H. Z.div_mod_to_equations. lia.
Qed.

Lemma monday_of_week_mono (d1 d2 : date) :
  toordinal d1 <= toordinal d2 ->
  toordinal (monday_of_week d1) <= toordinal (monday_of_week d2).
Proof.
  unfold monday_of_week, weekday. simpl. intros H. Z.div_mod_to_equations. lia.
Qed.

(** X16.  The week a request without a week falls back to names the
    calendar week: two days get the same week string exactly when the
    second lies in the seven days from the first one's Monday, a day of
    a later week gets a string that is larger as text, and the Monday of
    a Monday is that Monday. *)
Theorem week_key_identifies_week :
  forall env1 env2 : Env,
    (this_week env1 = this_week env2
     <-> toordinal (monday_of_week (today env1)) <= toordinal (today env2)
         < toordinal (monday_of_week (today env1)) + 7)
    /\ (toordinal (monday_of_week (today env1)) + 7 <= toordinal (today env2)
        -> String.ltb (this_week env1) (this_week env2) = true)
    /\ monday_of_week (monday_of_week (today env1)) = monday_of_week (today env1).
Proof.
  intros env1 env2. unfold this_week. split; [|split].
  - rewrite <- monday_of_week_same. split; [apply iso_date_inj | by intros ->].
  - intros H. unfold String.ltb. rewrite iso_date_ordinal_compare.
    assert (toordinal (monday_of_week (today env1))
            < toordinal (monday_of_week (today env2))) as Hlt.
    { revert H. unfold monday_of_week, weekday. simpl. intros H.
      Z.div_mod_to_equations. lia. }
    by rewrite (proj2 (Z.compare_lt_iff _ _) Hlt).
  - apply date_ext. unfold monday_of_week, weekday. simpl.
    Z.div_mod_to_equations. lia.
Qed.

(** Saturday 2024-06-08 and Monday 2024-06-10 are in two weeks. *)
Lemma week_key_identifies_week_witness :
  String.ltb (this_week sample_saturday) (this_week sample_env) = true.
Proof.
  destruct (week_key_identifies_week sample_saturday sample_env) as (_ & H & _).
  apply H. vm_compute. discriminate.
Defined.

Lemma sample_db_rotated_reachable : reachable sample_db_rotated.
Proof.
  apply (reachable_step _ (Rotate 1 (sample_request "2024-06-10")) sample_env).
  apply sample_db_reachable.
Qed.

(** ** Invariants of the assignments table *)

(** X5.  In every database the service gets to, the assignment ids grow
    in the order of the rows, no two rows share (household, week,
    chore), the chore and the member of every row are rows of the
    assignment's own household, and every row is "assigned" without a
    proof or "done". *)
Theorem reachable_assignments_consistent :
  forall db : DB,
    reachable db ->
    StronglySorted Z.lt (a_id <$> assignments db)
    /\ NoDup ((fun a => (a_household_id a, a_week_start a, a_chore_id a))
                <$> assignments db)
    /\ (forall a, a ∈ assignments db ->
          (exists c, c ∈ chores db /\ c_id c = a_chore_id a
                     /\ c_household_id c = a_household_id a)
          /\ (exists m, m ∈ members db /\ m_id m = a_member_id a
                        /\ m_household_id m = a_household_id a))
    /\ (forall a, a ∈ assignments db ->
          (a_status a = "assigned" /\ a_proof_url a = None) \/ a_status a = "done").
Proof.
  intros db (Hids & Hkeys & Hrefs & Hst)%reachable_assignments_ok.
  split; [done|]. split; [done|]. split.
  - intros a Ha. apply (proj1 (Forall_forall _ _) Hrefs a Ha).
  - intros a Ha. apply (proj1 (Forall_forall _ _) Hst a Ha).
Qed.

Lemma reachable_assignments_consistent_witness :
  NoDup ((fun a => (a_household_id a, a_week_start a, a_chore_id a))
           <$> assignments sample_db_rotated)
  /\ length (assignments sample_db_rotated) = 6%nat.
Proof.
  split; [|reflexivity].
  apply (reachable_assignments_consistent sample_db_rotated
           sample_db_rotated_reachable).
Defined.

(** X6.  In every database the service gets to, the reply of
    [get_current_assignments] has exactly one entry per assignment row
    of the household and week, in the order of the rows, each with the
    title of the row's chore and the name of the row's member: the join
    loses no row and repeats none. *)
Theorem current_assignments_complete :
  forall (db : DB) (hid : Z) (req : Request) (env : Env),
    reachable db ->
    exists views : list AssignmentView,
      get_current_assignments db hid req env
      = Json (mkWeekView (current_week req env) views)
      /\ av_assignment <$> views = week_rows db hid (current_week req env)
      /\ Forall2 (view_of db) (week_rows db hid (current_week req env)) views.
Proof.
  intros db hid req env Hr.
  exists (select_week db hid (current_week req env)). split; [done|].
  assert (Forall2 (view_of db) (week_rows db hid (current_week req env))
            (select_week db hid (current_week req env))) as Hv.
  { apply select_week_views;
      [by apply reachable_chores_in_order | by apply reachable_in_order
      | by apply reachable_assignments_ok]. }
  split; [by eapply views_assignments|done].
Qed.

Lemma current_assignments_complete_witness :
  exists views : list AssignmentView,
    get_current_assignments sample_db_rotated 1 (sample_request "2024-06-10") sample_env
    = Json (mkWeekView "2024-06-10" views)
    /\ length views = 5%nat.
Proof.
  destruct (current_assignments_complete sample_db_rotated 1
              (sample_request "2024-06-10") sample_env sample_db_rotated_reachable)
    as (views & Hreply & Hrows & _).
  exists views. split; [exact Hreply|].
  rewrite <- (length_fmap av_assignment), Hrows. reflexivity.
Defined.

(** ** One week, and the weeks after it *)

Lemma rotate_balances_week_witness :
  load 2 (week_rows sample_db_rotated 1 "2024-06-10") = 2%nat
  /\ load 1 (week_rows sample_db_rotated 1 "2024-06-10") = 1%nat.
Proof.
  destruct (rotate_balances_week sample_db 1 (sample_request "2024-06-10") sample_env)
    as (H & _ & _).
  - apply (bool_decide_unpack _). vm_compute. exact I.
  - apply (bool_decide_unpack _). vm_compute. exact I.
  - reflexivity.
  - vm_compute. discriminate.
  - vm_compute. discriminate.
  - split; [exact (H 0%nat 2 eq_refl) | exact (H 3%nat 1 eq_refl)].
Defined.


(** X9.  A week that has rows is written once: whatever requests
    follow, the rows of that household and week keep their ids, chores,
    members and creation times, and none is added or removed.  A chore
    or a member added later gets no assignment in that week. *)
Theorem week_is_written_once :
  forall (db db' : DB) (hid : Z) (week_start : string),
    reaches db db' ->
    week_rows db hid week_start <> [] ->
    assignment_core <$> week_rows db' hid week_start
    = assignment_core <$> week_rows db hid week_start.
Proof. intros db db' hid week_start. apply reaches_week_core. Qed.

Lemma week_is_written_once_witness :
  assignment_core
    <$> week_rows
          (handle
             (handle
                (handle sample_db_rotated (AddChore 1 (Some "C6") Missing) sample_env)
                (CompleteAssignment 3 (mkCompleteRequest ∅ None)) sample_env)
             (Rotate 1 (sample_request "2024-06-10")) sample_env)
          1 "2024-06-10"
  = assignment_core <$> week_rows sample_db_rotated 1 "2024-06-10".
Proof.
  apply week_is_written_once.
  - do 3 apply reaches_step. apply reaches_here.
  - vm_compute. discriminate.
Defined.

Lemma past_assignments_other (db : DB) (hid hid' : Z) (week_start w : string)
    (order : list Z) (env : Env) (chores : list Z) (base : Z) :
  hid' <> hid ->
  past_assignments
    (with_new_assignments db (planned_rows base hid week_start order env 0 chores))
    hid' w
  = past_assignments db hid' w.
Proof.
  intros Hne. unfold past_assignments. simpl. rewrite filter_app.
  rewrite (filter_none _ (planned_rows _ _ _ _ _ _ _)); [by rewrite app_nil_r|].
  intros a Ha [Hh _].
  pose proof (proj1 (Forall_forall _ _) (planned_rows_week _ _ _ _ _ _ _) a Ha)
    as [Hh' _].
  congruence.
Qed.

(** X10.  [rotate] writes to one household and one week only: it leaves
    households, members and chores as they are, keeps every assignment
    row and appends only rows of its own household and week, so the
    rows of every other household or week, and the fair order of every
    other household, are as before. *)
Theorem rotate_touches_one_week :
  forall (db : DB) (hid : Z) (req : Request) (env : Env),
    let db' := (rotate db hid req env).2 in
    (households db', members db', chores db') = (households db, members db, chores db)
    /\ (exists rows : list Assignment,
          assignments db' = assignments db ++ rows
          /\ Forall (fun a => a_household_id a = hid
                              /\ a_week_start a = rotate_week req env) rows)
    /\ (forall (hid' : Z) (week_start : string),
          hid' <> hid \/ week_start <> rotate_week req env ->
          week_rows db' hid' week_start = week_rows db hid' week_start)
    /\ (forall (hid' : Z) (week_start : string),
          hid' <> hid ->
          pick_member_round_robin db' hid' week_start
          = pick_member_round_robin db hid' week_start).
Proof.
  intros db hid req env db'. split; [|split; [|split]].
  - unfold db'. by destruct (rotate_cases db hid req env) as [-> | (_ & _ & _ & ->)].
  - unfold db'. destruct (rotate_cases db hid req env) as [-> | (_ & _ & _ & ->)].
    + exists []. by rewrite app_nil_r.
    + eexists. split; [done|]. apply planned_rows_week.
  - intros hid' week_start Hne. by apply rotate_other_rows.
  - intros hid' week_start Hne. unfold db'.
    destruct (rotate_cases db hid req env) as [-> | (_ & _ & _ & ->)]; [done|].
    unfold pick_member_round_robin, select_history, select_members.
    by rewrite past_assignments_other.
Qed.

(** ** Completion *)

(** X11.  Completing an assignment again is allowed and the last call
    wins: two completions of one id leave the database and give the
    reply of the second one alone, so the same completion twice is the
    same as once.  A completion changes neither the id, household,
    week, chore, member or creation time of any row nor the fair order
    of any household. *)
Theorem complete_last_wins :
  forall (db : DB) (aid : Z) (r1 r2 : CompleteRequest),
    complete_assignment (complete_assignment db aid r1).2 aid r2
    = complete_assignment db aid r2
    /\ assignment_core <$> assignments (complete_assignment db aid r1).2
       = assignment_core <$> assignments db
    /\ (forall (hid : Z) (week_start : string),
          pick_member_round_robin (complete_assignment db aid r1).2 hid week_start
          = pick_member_round_robin db hid week_start).
Proof.
  intros db aid r1 r2. split; [apply complete_assignment_twice|]. split.
  - unfold complete_assignment.
    destruct (fits_int64 aid); cbn [negb]; [|try done; by eexists].
    destruct (_ =? 0); [done|]. simpl.
    unfold update_done. rewrite <- list_fmap_compose. apply list_fmap_ext.
    intros i a _. simpl. by case_bool_decide.
  - intros hid week_start. apply complete_assignment_order.
Qed.

(** ** Rows stay, and stay done *)

Lemma handle_keeps_row (db : DB) (c : Call) (env : Env) (i : nat) (a : Assignment) :
  assignments db !! i = Some a ->
  exists a' : Assignment,
    assignments (handle db c env) !! i = Some a'
    /\ assignment_core a' = assignment_core a
    /\ (a_status a = "done" -> a_status a' = "done").
Proof.
  intros Hi.
  destruct c as [name|hid name email|hid title cadence|hid req|aid req]; simpl.
  - unfold create_household. destruct (falsy name); by exists a.
  - unfold add_member, add_member_on. destruct (falsy name); by exists a.
  - unfold add_chore. destruct (falsy title), (get_or cadence "weekly"); by exists a.
  - destruct (rotate_cases db hid req env) as [-> | (_ & _ & _ & ->)]; [by exists a|].
    exists a. simpl. split; [|done]. by apply lookup_app_l_Some.
  - unfold complete_assignment.
    destruct (fits_int64 aid); cbn [negb]; [|try done; by eexists].
    destruct (_ =? 0); [by exists a|]. simpl.
    unfold update_done. rewrite list_lookup_fmap, Hi. simpl.
    eexists. split; [done|]. by case_bool_decide.
Qed.

(** X12.  No request deletes, moves or reassigns an assignment: a row
    stays at its place with its id, household, week, chore, member and
    creation time through every later request, and a row that is
    "done" stays "done". *)
Theorem rows_stay_and_stay_done :
  forall (db db' : DB) (i : nat) (a : Assignment),
    reaches db db' ->
    assignments db !! i = Some a ->
    exists a' : Assignment,
      assignments db' !! i = Some a'
      /\ assignment_core a' = assignment_core a
      /\ (a_status a = "done" -> a_status a' = "done").
Proof.
  intros db db' i a Hr Hi. induction Hr as [|db' c env Hr (a1 & H1 & Hc1 & Hd1)].
  - by exists a.
  - destruct (handle_keeps_row db' c env i a1 H1) as (a2 & H2 & Hc2 & Hd2).
    exists a2. split; [done|]. split; [congruence|auto].
Qed.

Lemma rows_stay_and_stay_done_witness :
  exists a' : Assignment,
    assignments
      (handle (handle sample_db (CompleteAssignment 1 (mkCompleteRequest ∅ None))
                      sample_env)
              (Rotate 1 (sample_request "2024-06-10")) sample_env) !! 0%nat = Some a'
    /\ a_status a' = "done".
Proof.
  destruct (rows_stay_and_stay_done
              (handle sample_db (CompleteAssignment 1 (mkCompleteRequest ∅ None))
                      sample_env)
              (handle (handle sample_db (CompleteAssignment 1 (mkCompleteRequest ∅ None))
                              sample_env)
                      (Rotate 1 (sample_request "2024-06-10")) sample_env)
              0%nat
              (mkAssignment 1 1 "2024-06-03" 1 1 "done" None "t"))
    as (a' & Ha' & _ & Hdone).
  - apply reaches_step, reaches_here.
  - reflexivity.
  - exists a'. split; [exact Ha' | by apply Hdone].
Defined.

(** ** [get_household] *)

(** X13.  In every database the service gets to, [get_household]
    answers 404 for an id that fits SQLite's 64-bit INTEGER and that no
    household has, ends in the [OverflowError] of the binding for an id
    that does not fit, and for a household it answers with that
    household, its members in the order they joined (join orders 1, 2,
    3, ...) and its chores newest first. *)
Theorem get_household_lists :
  forall db : DB,
    reachable db ->
    (forall hid : Z,
       fits_int64 hid = true ->
       (forall h, h ∈ households db -> h_id h <> hid) ->
       get_household db hid = JsonError 404 "not found")
    /\ (forall hid : Z,
          fits_int64 hid = false ->
          get_household db hid = Unhandled (OverflowError INT_TOO_LARGE))
    /\ (forall h : Household,
          h ∈ households db ->
          fits_int64 (h_id h) = true ->
          get_household db (h_id h)
          = Json (mkHouseholdDetail h
                    (filter (fun m => m_household_id m = h_id h) (members db))
                    (reverse (filter (fun c => c_household_id c = h_id h) (chores db))))
          /\ m_join_order <$> filter (fun m => m_household_id m = h_id h) (members db)
             = seqZ 1 (Z.of_nat (length (filter (fun m => m_household_id m = h_id h)
                                                (members db))))).
Proof.
  intros db Hr. split; [intros hid; apply get_household_missing|].
  split; [intros hid; apply get_household_overflow|].
  intros h Hh Hfit. split.
  - apply get_household_found;
      [by apply reachable_households_in_order | by apply reachable_chores_in_order
      | by apply reachable_in_order | done | done].
  - destruct (reachable_in_order db Hr) as [_ Hjo].
    specialize (Hjo (h_id h)). unfold join_orders in Hjo.
    by rewrite length_fmap in Hjo.
Qed.

Lemma get_household_lists_witness :
  get_household sample_db 9 = JsonError 404 "not found"
  /\ get_household sample_db 9223372036854775808
     = Unhandled (OverflowError INT_TOO_LARGE)
  /\ (exists d : HouseholdDetail,
        get_household sample_db 1 = Json d
        /\ m_id <$> hd_members d = [1; 2; 3; 4]
        /\ c_id <$> hd_chores d = [5; 4; 3; 2; 1]).
Proof.
  destruct (get_household_lists sample_db sample_db_reachable)
    as (H404 & Hbig & Hfound).
  split; [|split].
  - apply H404; [reflexivity|]. intros h Hh. vm_compute in Hh. set_unfold in Hh.
    destruct Hh as [->|[]]. discriminate.
  - apply Hbig. reflexivity.
  - destruct (Hfound (mkHousehold 1 "H" "t")) as [Heq _].
    + vm_compute. left.
    + reflexivity.
    + eexists. split; [exact Heq|]. split; reflexivity.
Defined.




(** ** A new member *)

Lemma new_member_no_history (db : DB) (hid : Z) (week_start : string) :
  assignments_ok db ->
  past_count db hid week_start (next_rowid (m_id <$> members db) (seq_members db)) = 0.
Proof.
  intros (_ & _ & Hrefs & _). rewrite past_count_spec.
  rewrite filter_none; [done|]. intros a [_ Ha]%list_elem_of_filter Hid.
  destruct (proj1 (Forall_forall _ _) Hrefs a Ha) as [_ (m & Hm & Hmid & _)].
  pose proof (proj1 (Forall_forall _ _)
                (next_rowid_fresh (m_id <$> members db) (seq_members db)) (m_id m)
                ltac:(by apply list_elem_of_fmap_2)) as Hfresh.
  simpl in Hfresh. lia.
Qed.

(** X15.  A member who has just been added stands in the fair order of
    their household before every member who already has an assignment
    before the target week. *)
Theorem new_member_goes_first :
  forall (db : DB) (hid : Z) (name email : option string) (env : Env)
         (week_start : string) (i j : nat) (new m : Z),
    reachable db ->
    (add_member db hid name email env).1
    = Json (mkMemberView new (default "" name) email (next_join_order db hid)) ->
    let db' := (add_member db hid name email env).2 in
    pick_member_round_robin db' hid week_start !! i = Some new ->
    pick_member_round_robin db' hid week_start !! j = Some m ->
    0 < past_count db' hid week_start m ->
    (i < j)%nat.
Proof.
  intros db hid name email env week_start i j new m Hr Hreply db' Hi Hj Hpos.
  destruct (falsy name) eqn:Hn.
  { unfold add_member, add_member_on in Hreply. by rewrite Hn in Hreply. }
  rewrite add_member_ok in Hreply by done. simpl in Hreply. injection Hreply as <-.
  assert (past_count db' hid week_start
            (next_rowid (m_id <$> members db) (seq_members db)) = 0) as Hnew.
  { pose proof (new_member_no_history db hid week_start
                  (reachable_assignments_ok db Hr)) as H0.
    unfold db'. rewrite add_member_ok by done.
    rewrite past_count_spec in H0 |- *. exact H0. }
  destruct (decide (i < j)%nat) as [|Hge]; [done|].
  pose proof (fair_order_counts_ascend db' hid week_start j i _ _ ltac:(lia) Hj Hi).
  lia.
Qed.

Lemma new_member_goes_first_witness :
  pick_member_round_robin
    (add_member sample_db_rotated 1 (Some "M5") None sample_env).2 1 "2024-06-17"
  = [5; 3; 4; 1; 2]
  /\ (0 < 3)%nat.
Proof.
  split; [reflexivity|].
  apply (new_member_goes_first sample_db_rotated 1 (Some "M5") None sample_env
           "2024-06-17" 0 3 5 1 sample_db_rotated_reachable).
  - reflexivity.
  - reflexivity.
  - reflexivity.
  - reflexivity.
Defined.
